(** * API Key Automaton: a shallow embedding of [key_automaton.py]

    The service keeps three module-level lists ([api_keys_db],
    [allocations_db], [audit_log_db]) and exposes FastAPI routes that read
    and mutate them.  The lists form the [Store]; every route handler is a
    computation in a state-and-exception monad over that store, in which a
    raised [HTTPException] keeps whatever mutation was made before it (as
    Python does: nothing is rolled back).

    [datetime.now()] is read from the environment: each reading is passed
    to the handler as an argument, in call order.  [json.dumps] and the
    value of the [ADMIN_API_KEY] environment variable are parameters of the
    development.  Request bodies are taken as already validated against the
    pydantic models.  [handle] and [run] serve requests one at a time;
    calls of [create_key] that overlap are modelled apart, statement by
    statement ([create_key_step], [interleave]). *)

From Stdlib Require Import ZArith List String Ascii Lia DecimalString DecimalNat.
From stdpp Require Import base list strings gmap.

Open Scope string_scope.

(** ** Formatting *)

(** [str(n)] for a non-negative integer. *)
Definition str_of_nat (n : nat) : string :=
  NilEmpty.string_of_uint (Nat.to_uint n).

Fixpoint zeros (k : nat) : string :=
  match k with
  | O => ""
  | S k' => String "0"%char (zeros k')
  end.

(** [f"{n:0{w}d}"]: decimal digits, padded on the left with zeros up to
    width [w]; longer numbers are not truncated. *)
Definition fmt_0d (w n : nat) : string :=
  let digits := str_of_nat n in
  zeros (w - String.length digits) ++ digits.

(** [f"{n:03d}"] *)
Definition fmt_03d (n : nat) : string := fmt_0d 3 n.

(** ** Data model *)

(** A naive [datetime.datetime]. *)
Module DateTime.
Record t := mk {
  year : nat; month : nat; day : nat;
  hour : nat; minute : nat; second : nat; microsecond : nat
}.

(** [datetime.isoformat()]: [YYYY-MM-DDTHH:MM:SS], followed by [.ffffff]
    when the microsecond is not zero. *)
Definition isoformat (d : t) : string :=
  fmt_0d 4 (year d) ++ "-" ++ fmt_0d 2 (month d) ++ "-" ++ fmt_0d 2 (day d)
  ++ "T" ++ fmt_0d 2 (hour d) ++ ":" ++ fmt_0d 2 (minute d) ++ ":"
  ++ fmt_0d 2 (second d)
  ++ (if Nat.eqb (microsecond d) 0 then "" else "." ++ fmt_0d 6 (microsecond d)).
End DateTime.

(** JSON values, as request bodies carry them ([scope: dict] and the body of
    [/system-requests]). *)
#[warnings="-register-all"]
Inductive Json :=
| JNull
| JBool (b : bool)
| JInt (z : Z)
| JStr (s : string)
| JArr (items : list Json)
| JObj (members : list (string * Json)).

Definition Dict := list (string * Json).

(** Values stored under the keys of the dicts the service builds. *)
Inductive Value :=
| VNone
| VInt (z : Z)
| VStr (s : string)
| VDateTime (d : DateTime.t)
| VStrList (l : list string)
| VDict (d : Dict).

Definition value_of_opt_datetime (o : option DateTime.t) : Value :=
  match o with
  | Some d => VDateTime d
  | None => VNone
  end.

(** [d.get(k)] on a dict written as its list of items. *)
Fixpoint dict_get (d : list (string * Value)) (k : string) : option Value :=
  match d with
  | [] => None
  | (k', v) :: d' => if String.eqb k' k then Some v else dict_get d' k
  end.

(** The request model [KeyCreate]. *)
Module KeyCreate.
Record t := mk {
  system_name : string;
  system_type : string;
  env : string;
  name : string;
  key_ref : string
}.
End KeyCreate.

(** The request model [AllocationCreate]. *)
Module AllocationCreate.
Record t := mk {
  key_id : string;
  consumer_type : string;
  consumer_id : string;
  scope : Dict
}.
End AllocationCreate.

(** An element of [api_keys_db]: a dict with the nine keys below (those of
    [KeyOut]). *)
Module Key.
Record t := mk {
  id : string;
  name : string;
  system_name : string;
  system_type : string;
  env : string;
  status : string;
  last_used_at : option DateTime.t;
  last_rotated_at : option DateTime.t;
  allocated_to : list string
}.

(** [key["last_rotated_at"] = d] *)
Definition set_last_rotated_at (d : DateTime.t) (k : t) : t :=
  mk (id k) (name k) (system_name k) (system_type k) (env k) (status k)
     (last_used_at k) (Some d) (allocated_to k).

(** [key["allocated_to"].append(c)] *)
Definition allocated_to_append (c : string) (k : t) : t :=
  mk (id k) (name k) (system_name k) (system_type k) (env k) (status k)
     (last_used_at k) (last_rotated_at k) (allocated_to k ++ [c]).

(** The dict itself: its keys and values, in the order the source writes
    them. *)
Definition to_dict (k : t) : list (string * Value) :=
  [ ("id", VStr (id k));
    ("name", VStr (name k));
    ("system_name", VStr (system_name k));
    ("system_type", VStr (system_type k));
    ("env", VStr (env k));
    ("status", VStr (status k));
    ("last_used_at", value_of_opt_datetime (last_used_at k));
    ("last_rotated_at", value_of_opt_datetime (last_rotated_at k));
    ("allocated_to", VStrList (allocated_to k)) ].
End Key.

(** An element of [allocations_db]. *)
Module Allocation.
Record t := mk {
  id : string;
  key_id : string;
  consumer_type : string;
  consumer_id : string;
  scope : Dict;
  created_at : string
}.

Definition to_dict (a : t) : list (string * Value) :=
  [ ("id", VStr (id a));
    ("key_id", VStr (key_id a));
    ("consumer_type", VStr (consumer_type a));
    ("consumer_id", VStr (consumer_id a));
    ("scope", VDict (scope a));
    ("created_at", VStr (created_at a)) ].
End Allocation.

(** An element of [audit_log_db].  The entries of [system_request] have no
    ["key_id"] key: [key_id] is [None] for them. *)
Module AuditEntry.
Record t := mk {
  timestamp : string;
  action : string;
  key_id : option string;
  details : string
}.

Definition to_dict (e : t) : list (string * Value) :=
  [ ("timestamp", VStr (timestamp e)); ("action", VStr (action e)) ]
  ++ match key_id e with
     | Some k => [ ("key_id", VStr k) ]
     | None => []
     end
  ++ [ ("details", VStr (details e)) ].
End AuditEntry.

(** [fastapi.HTTPException] *)
Record HTTPException := mkHTTPException {
  status_code : Z;
  detail : string
}.

(** The three in-memory collections. *)
Record Store := mkStore {
  api_keys_db : list Key.t;
  allocations_db : list Allocation.t;
  audit_log_db : list AuditEntry.t
}.

Definition dt (y mo d h mi s : nat) : DateTime.t := DateTime.mk y mo d h mi s 0.

Definition initial_api_keys_db : list Key.t :=
  [ Key.mk "key-001" "Production Database" "PostgreSQL" "db" "prod" "active"
      (Some (dt 2024 2 7 12 0 0)) (Some (dt 2024 2 1 0 0 0))
      ["Server-01"; "Server-02"];
    Key.mk "key-002" "Payment Gateway" "Stripe" "payments" "prod" "active"
      (Some (dt 2024 2 6 18 30 0)) (Some (dt 2024 1 15 0 0 0))
      ["API-Gateway"];
    Key.mk "key-003" "Cloud Storage" "AWS S3" "storage" "prod" "active"
      None (Some (dt 2024 2 5 0 0 0))
      [] ].

(** The store when the module has just been loaded. *)
Definition initial_store : Store :=
  mkStore initial_api_keys_db [] [].

(** ** The handler monad: state over [Store], with [HTTPException] *)

Inductive Outcome (A : Type) :=
| Return (a : A)
| Raise (e : HTTPException).
Arguments Return {A} a.
Arguments Raise {A} e.

Definition M (A : Type) : Type := Store -> Outcome A * Store.

Definition ret {A} (a : A) : M A := fun s => (Return a, s).

Definition raise {A} (e : HTTPException) : M A := fun s => (Raise e, s).

Definition bind {A B} (m : M A) (k : A -> M B) : M B :=
  fun s =>
    match m s with
    | (Return a, s') => k a s'
    | (Raise e, s') => (Raise e, s')
    end.

Definition gets {A} (f : Store -> A) : M A := fun s => (Return (f s), s).

Definition modify (f : Store -> Store) : M unit := fun s => (Return tt, f s).

Declare Scope handler_scope.
Delimit Scope handler_scope with handler.
Notation "x <- m ;; k" := (bind m (fun x => k))
  (at level 100, m at next level, right associativity) : handler_scope.
Notation "m ;; k" := (bind m (fun _ => k))
  (at level 100, right associativity) : handler_scope.
Open Scope handler_scope.

(** [api_keys_db.append(k)] *)
Definition api_keys_db_append (k : Key.t) : M unit :=
  modify (fun s => mkStore (api_keys_db s ++ [k]) (allocations_db s) (audit_log_db s)).

(** In-place mutation of the dict at position [i] of [api_keys_db]. *)
Definition api_keys_db_update (i : nat) (f : Key.t -> Key.t) : M unit :=
  modify (fun s =>
    mkStore (match api_keys_db s !! i with
             | Some k => <[i := f k]> (api_keys_db s)
             | None => api_keys_db s
             end)
            (allocations_db s) (audit_log_db s)).

(** [allocations_db.append(a)] *)
Definition allocations_db_append (a : Allocation.t) : M unit :=
  modify (fun s => mkStore (api_keys_db s) (allocations_db s ++ [a]) (audit_log_db s)).

(** [audit_log_db.append(e)] *)
Definition audit_log_db_append (e : AuditEntry.t) : M unit :=
  modify (fun s => mkStore (api_keys_db s) (allocations_db s) (audit_log_db s ++ [e])).

(** The loop
    [for key in api_keys_db: if key["id"] == key_id: key_found = key; break]:
    the first key with that id, with its position (the dict is shared with
    the list, so a later mutation of [key_found] is a mutation at that
    position). *)
Fixpoint find_key_from (i : nat) (key_id : string) (db : list Key.t)
  : option (nat * Key.t) :=
  match db with
  | [] => None
  | k :: db' =>
      if String.eqb (Key.id k) key_id then Some (i, k)
      else find_key_from (S i) key_id db'
  end.

Definition find_key (key_id : string) (db : list Key.t) : option (nat * Key.t) :=
  find_key_from 0 key_id db.

(** [x in l] for a list of strings. *)
Fixpoint str_in (x : string) (l : list string) : bool :=
  match l with
  | [] => false
  | y :: l' => if String.eqb y x then true else str_in x l'
  end.

(** [l[start:]] with Python's treatment of a negative or too large start. *)
Definition slice_from {A} (start : Z) (l : list A) : list A :=
  let len := Z.of_nat (length l) in
  let lo := if (start <? 0)%Z then Z.max 0 (start + len) else Z.min start len in
  drop (Z.to_nat lo) l.

(** ** The service *)

(** Responses of the routes (the JSON bodies of the successful returns). *)
Inductive Response :=
| RRoot (service version status : string)
| RHealth (status timestamp : string) (keys_count : nat)
| RCreated (status key_id : string)
| RKeys (keys : list Key.t)
| RKey (key : Key.t)
| RAllocated (status allocation_id : string)
| RAllocations (allocations : list Allocation.t)
| RRotated (status key_id : string)
| RAuditLog (entries : list AuditEntry.t)
| RLogged (status : string).

(** The calls a client can make.  The [now] arguments are the readings of
    [datetime.now()] the handler takes, in order. *)
Inductive Call :=
| GET_root
| GET_health (now : DateTime.t)
| POST_keys (now1 now2 : DateTime.t) (payload : KeyCreate.t)
| GET_keys
| GET_key (key_id : string)
| POST_allocations (now1 now2 : DateTime.t) (payload : AllocationCreate.t)
| GET_allocations
| POST_rotate (now1 now2 : DateTime.t) (key_id : string)
| GET_audit_log
| POST_system_requests (now : DateTime.t) (payload : Dict).

(** A request: the [x-admin-api-key] header (absent: [None], since the
    header scheme has [auto_error=False]) and the call. *)
Record Request := mkRequest {
  x_admin_api_key : option string;
  call : Call
}.

Section Service.

(** [os.getenv("ADMIN_API_KEY")] without its default: [None] when the
    variable is not set. *)
Variable getenv_ADMIN_API_KEY : option string.

(** [json.dumps] *)
Variable json_dumps : Dict -> string.

Definition ADMIN_KEYS : gset string :=
  {[ default "demo-admin-key-change-me" getenv_ADMIN_API_KEY ]}.

(** [api_key in ADMIN_KEYS]; an absent header ([None]) is in no set of
    strings. *)
Definition in_ADMIN_KEYS (api_key : option string) : bool :=
  match api_key with
  | Some k => bool_decide (k ∈ ADMIN_KEYS)
  | None => false
  end.

Definition require_admin (api_key : option string) : M (option string) :=
  if negb (in_ADMIN_KEYS api_key) then
    raise (mkHTTPException 401 "Invalid or missing admin API key")
  else ret api_key.

Definition root : M Response :=
  ret (RRoot "API Key Automaton" "1.0.0" "running").

Definition health (now : DateTime.t) : M Response :=
  db <- gets api_keys_db ;;
  ret (RHealth "healthy" (DateTime.isoformat now) (length db)).

Definition create_key (now1 now2 : DateTime.t) (payload : KeyCreate.t)
  : M Response :=
  db <- gets api_keys_db ;;
  let key_id := "key-" ++ fmt_03d (length db + 1) in
  let new_key :=
    Key.mk key_id (KeyCreate.name payload) (KeyCreate.system_name payload)
           (KeyCreate.system_type payload) (KeyCreate.env payload)
           "active" None (Some now1) [] in
  api_keys_db_append new_key ;;
  audit_log_db_append
    (AuditEntry.mk (DateTime.isoformat now2) "create_key" (Some key_id)
       ("Created key '" ++ KeyCreate.name payload ++ "'")) ;;
  ret (RCreated "ok" key_id).

Definition list_keys : M Response :=
  db <- gets api_keys_db ;;
  ret (RKeys db).

Definition get_key (key_id : string) : M Response :=
  db <- gets api_keys_db ;;
  match find_key key_id db with
  | Some (_, key) => ret (RKey key)
  | None => raise (mkHTTPException 404 "Key not found")
  end.

(** [if not key_found] tests a dict, and a key dict is never empty: the
    test fails exactly when the loop found nothing. *)
Definition allocate_key (now1 now2 : DateTime.t) (payload : AllocationCreate.t)
  : M Response :=
  db <- gets api_keys_db ;;
  match find_key (AllocationCreate.key_id payload) db with
  | None => raise (mkHTTPException 404 "Key not found")
  | Some (i, key_found) =>
      (if negb (str_in (AllocationCreate.consumer_id payload)
                       (Key.allocated_to key_found))
       then api_keys_db_update i
              (Key.allocated_to_append (AllocationCreate.consumer_id payload))
       else ret tt) ;;
      allocs <- gets allocations_db ;;
      let allocation :=
        Allocation.mk ("alloc-" ++ fmt_03d (length allocs + 1))
          (AllocationCreate.key_id payload)
          (AllocationCreate.consumer_type payload)
          (AllocationCreate.consumer_id payload)
          (AllocationCreate.scope payload)
          (DateTime.isoformat now1) in
      allocations_db_append allocation ;;
      audit_log_db_append
        (AuditEntry.mk (DateTime.isoformat now2) "allocate_key"
           (Some (AllocationCreate.key_id payload))
           ("Allocated to " ++ AllocationCreate.consumer_id payload)) ;;
      ret (RAllocated "allocated" (Allocation.id allocation))
  end.

Definition list_allocations : M Response :=
  allocs <- gets allocations_db ;;
  ret (RAllocations allocs).

Definition rotate_key (now1 now2 : DateTime.t) (key_id : string) : M Response :=
  db <- gets api_keys_db ;;
  match find_key key_id db with
  | None => raise (mkHTTPException 404 "Key not found")
  | Some (i, key_found) =>
      api_keys_db_update i (Key.set_last_rotated_at now1) ;;
      audit_log_db_append
        (AuditEntry.mk (DateTime.isoformat now2) "rotate_key" (Some key_id)
           ("Rotated key '" ++ Key.name key_found ++ "'")) ;;
      ret (RRotated "rotated" key_id)
  end.

Definition get_audit_log : M Response :=
  log <- gets audit_log_db ;;
  ret (RAuditLog (slice_from (-100) log)).

Definition system_request (now : DateTime.t) (payload : Dict) : M Response :=
  audit_log_db_append
    (AuditEntry.mk (DateTime.isoformat now) "system_request" None
       (json_dumps payload)) ;;
  ret (RLogged "logged").

(** A route declared with [dependencies=[Depends(require_admin)]]: the
    dependency runs first, and the endpoint runs only if it returns. *)
Definition admin_route (api_key : option string) (endpoint : M Response)
  : M Response :=
  require_admin api_key ;; endpoint.

(** The routing table. *)
Definition handle (req : Request) : M Response :=
  let api_key := x_admin_api_key req in
  match call req with
  | GET_root => root
  | GET_health now => health now
  | POST_keys now1 now2 payload => admin_route api_key (create_key now1 now2 payload)
  | GET_keys => admin_route api_key list_keys
  | GET_key key_id => admin_route api_key (get_key key_id)
  | POST_allocations now1 now2 payload =>
      admin_route api_key (allocate_key now1 now2 payload)
  | GET_allocations => admin_route api_key list_allocations
  | POST_rotate now1 now2 key_id => admin_route api_key (rotate_key now1 now2 key_id)
  | GET_audit_log => admin_route api_key get_audit_log
  | POST_system_requests now payload => admin_route api_key (system_request now payload)
  end.

(** The store after serving the requests in order. *)
Definition run (reqs : list Request) (s : Store) : Store :=
  fold_left (fun s req => snd (handle req s)) reqs s.

End Service.

(** ** Observations on stores *)

(** The rotations of credential [key_id] recorded in the audit log. *)
Definition is_rotation_of (key_id : string) (e : AuditEntry.t) : bool :=
  String.eqb (AuditEntry.action e) "rotate_key"
  && match AuditEntry.key_id e with
     | Some k => String.eqb k key_id
     | None => false
     end.

Definition rotation_count (key_id : string) (log : list AuditEntry.t) : nat :=
  length (List.filter (is_rotation_of key_id) log).



(** The calls that write: a successful one appends to the audit log. *)
Definition is_mutation (c : Call) : bool :=
  match c with
  | POST_keys _ _ _ | POST_allocations _ _ _ | POST_rotate _ _ _
  | POST_system_requests _ _ => true
  | _ => false
  end.

(** The operations behind the admin gate: every route but [/] and
    [/health]. *)
Definition privileged (c : Call) : bool :=
  match c with
  | GET_root | GET_health _ => false
  | _ => true
  end.

(** The ids of [api_keys_db] follow the numbering of [create_key]: the key
    at position [i] is [key-(i+1)]. *)
Definition ids_numbered (db : list Key.t) : Prop :=
  forall i k, db !! i = Some k -> Key.id k = "key-" ++ fmt_03d (i + 1).


(** What serving one request does to the store, whatever the request. *)
Inductive Effect (s : Store) : Outcome Response -> Store -> Prop :=
| Effect_raise e :
    Effect s (Raise e) s
| Effect_read r :
    Effect s (Return r) s
| Effect_create r k e :
    Key.id k = "key-" ++ fmt_03d (length (api_keys_db s) + 1) ->
    Key.allocated_to k = [] ->
    AuditEntry.action e = "create_key" ->
    Effect s (Return r)
      (mkStore (api_keys_db s ++ [k]) (allocations_db s) (audit_log_db s ++ [e]))
| Effect_allocate r i k c a e :
    api_keys_db s !! i = Some k ->
    AuditEntry.action e = "allocate_key" ->
    Effect s (Return r)
      (mkStore (if str_in c (Key.allocated_to k) then api_keys_db s
                else <[i := Key.allocated_to_append c k]> (api_keys_db s))
               (allocations_db s ++ [a]) (audit_log_db s ++ [e]))
| Effect_rotate r i k now e :
    api_keys_db s !! i = Some k ->
    AuditEntry.action e = "rotate_key" ->
    AuditEntry.key_id e = Some (Key.id k) ->
    Effect s (Return r)
      (mkStore (<[i := Key.set_last_rotated_at now k]> (api_keys_db s))
               (allocations_db s) (audit_log_db s ++ [e]))
| Effect_log r e :
    AuditEntry.action e = "system_request" ->
    Effect s (Return r)
      (mkStore (api_keys_db s) (allocations_db s) (audit_log_db s ++ [e])).

(** ** The statements of the design document, for comparison *)

(** The version number the design gives a credential: the integer under
    the key ["currentVersion"] of its dict. *)
Definition currentVersion (k : Key.t) : option Z :=
  match dict_get (Key.to_dict k) "currentVersion" with
  | Some (VInt v) => Some v
  | _ => None
  end.

(** "Rotating a key increments currentVersion by exactly 1." *)
Definition spec_rotate_increments_version
  (now1 now2 : DateTime.t) (key_id : string) (s : Store) : Prop :=
  forall r s', rotate_key now1 now2 key_id s = (Return r, s') ->
  forall i k, find_key key_id (api_keys_db s) = Some (i, k) ->
  exists k' v, api_keys_db s' !! i = Some k'
               /\ currentVersion k = Some v /\ currentVersion k' = Some (v + 1)%Z.


(** "For every pair of distinct created credentials, their ids differ." *)
Definition spec_ids_unique (db : list Key.t) : Prop :=
  forall i j k1 k2, i <> j -> db !! i = Some k1 -> db !! j = Some k2 ->
  Key.id k1 <> Key.id k2.

(** "Every audit entry carries a sequence number." *)
Definition spec_entry_has_sequence (e : AuditEntry.t) : Prop :=
  exists n, dict_get (AuditEntry.to_dict e) "sequence" = Some (VInt n).

(** The filters of the design's [list(filter)]; [None] is an absent filter. *)
Module KeyFilter.
Record t := mk {
  status : option string;
  environment : option string;
  systemType : option string
}.

Definition none : t := mk None None None.

Definition test (f : option string) (v : string) : bool :=
  match f with
  | Some x => String.eqb x v
  | None => true
  end.

Definition matches (f : t) (k : Key.t) : bool :=
  test (status f) (Key.status k)
  && test (environment f) (Key.env k)
  && test (systemType f) (Key.system_type k).
End KeyFilter.

(** "list(filter) returns credentials matching optional filters." *)
Definition spec_list_keys (f : KeyFilter.t) (s : Store) : Prop :=
  fst (list_keys s) = Return (RKeys (List.filter (KeyFilter.matches f) (api_keys_db s))).

(** ** Sample inputs *)

Definition demo_admin : option string := Some "demo-admin-key-change-me".

Definition sample_dumps (d : Dict) : string := "{}".

Definition noon : DateTime.t := dt 2024 3 1 12 0 0.

Definition consumer_C1 (scope : Dict) : AllocationCreate.t :=
  AllocationCreate.mk "key-003" "service" "C1" scope.

Definition allocate_C1_twice : list Request :=
  [ mkRequest demo_admin
      (POST_allocations noon noon (consumer_C1 [("read", JBool true)]));
    mkRequest demo_admin
      (POST_allocations noon noon (consumer_C1 [("write", JBool true)])) ].

Definition create_K1 : Request :=
  mkRequest demo_admin
    (POST_keys noon noon (KeyCreate.mk "Redis" "cache" "dev" "K1" "vault:k1")).

(** ** Overlapping calls of [create_key] *)

(** [create_key] is a plain [def], which the framework runs in a worker
    thread, and the module has no lock: another call may run between any
    two of its statements.  A call in flight is at one of these points. *)
Inductive CreatePoint :=
| BeforeId
| HasId (key_id : string)
| KeyAppended (key_id : string)
| Returned (r : Response).

Record CreateCall := mkCreateCall {
  call_now1 : DateTime.t;
  call_now2 : DateTime.t;
  call_payload : KeyCreate.t;
  call_point : CreatePoint
}.

Definition at_point (c : CreateCall) (pt : CreatePoint) : CreateCall :=
  mkCreateCall (call_now1 c) (call_now2 c) (call_payload c) pt.

(** One statement of the call: the computation of [key_id] from
    [len(api_keys_db)], then [api_keys_db.append(new_key)], then
    [audit_log_db.append(...)] and the return. *)
Definition create_key_step (c : CreateCall) (s : Store) : CreateCall * Store :=
  let payload := call_payload c in
  match call_point c with
  | BeforeId =>
      (at_point c (HasId ("key-" ++ fmt_03d (length (api_keys_db s) + 1))), s)
  | HasId key_id =>
      let new_key :=
        Key.mk key_id (KeyCreate.name payload) (KeyCreate.system_name payload)
               (KeyCreate.system_type payload) (KeyCreate.env payload)
               "active" None (Some (call_now1 c)) [] in
      (at_point c (KeyAppended key_id), snd (api_keys_db_append new_key s))
  | KeyAppended key_id =>
      (at_point c (Returned (RCreated "ok" key_id)),
       snd (audit_log_db_append
              (AuditEntry.mk (DateTime.isoformat (call_now2 c)) "create_key"
                 (Some key_id) ("Created key '" ++ KeyCreate.name payload ++ "'")) s))
  | Returned r => (c, s)
  end.

(** The calls in flight advance one statement at a time, in the order the
    schedule names them. *)
Fixpoint interleave (schedule : list nat) (calls : list CreateCall) (s : Store)
  : list CreateCall * Store :=
  match schedule with
  | [] => (calls, s)
  | i :: schedule' =>
      match calls !! i with
      | Some c =>
          let '(c', s') := create_key_step c s in
          interleave schedule' (<[i := c']> calls) s'
      | None => interleave schedule' calls s
      end
  end.


(** ** Further observations on stores *)

(** The fields of a credential that no handler writes after creation. *)
Definition same_identity (k k' : Key.t) : Prop :=
  Key.id k' = Key.id k /\ Key.name k' = Key.name k
  /\ Key.system_name k' = Key.system_name k
  /\ Key.system_type k' = Key.system_type k
  /\ Key.env k' = Key.env k /\ Key.status k' = Key.status k
  /\ Key.last_used_at k' = Key.last_used_at k.

(** [db'] holds, at the same positions, the credentials of [db], each with
    the same identity and an [allocated_to] that has only grown at its
    end. *)
Definition keys_extend (db db' : list Key.t) : Prop :=
  forall i k, db !! i = Some k ->
  exists k', db' !! i = Some k' /\ same_identity k k'
             /\ Key.allocated_to k `prefix_of` Key.allocated_to k'.

(** The ids of [allocations_db] follow the numbering of [allocate_key]. *)
Definition allocations_numbered (allocs : list Allocation.t) : Prop :=
  forall i a, allocs !! i = Some a -> Allocation.id a = "alloc-" ++ fmt_03d (i + 1).

(** Every allocation record names a credential that [find_key] resolves,
    and that credential lists the consumer of the record. *)
Definition allocations_resolve (s : Store) : Prop :=
  forall a, a ∈ allocations_db s ->
  exists i k, find_key (Allocation.key_id a) (api_keys_db s) = Some (i, k)
              /\ Allocation.consumer_id a ∈ Key.allocated_to k.

(** The shape of the audit entries: the action is one of the four the
    handlers write, and the entry has a ["key_id"] unless it is a
    [system_request] one. *)
Definition entry_well_formed (e : AuditEntry.t) : Prop :=
  (AuditEntry.action e = "system_request" /\ AuditEntry.key_id e = None)
  \/ (exists key_id, AuditEntry.key_id e = Some key_id
        /\ (AuditEntry.action e = "create_key"
            \/ AuditEntry.action e = "allocate_key"
            \/ AuditEntry.action e = "rotate_key")).

(** Every audit entry that has a ["key_id"] names a credential of the
    store. *)
Definition audit_resolves (s : Store) : Prop :=
  forall e key_id, e ∈ audit_log_db s -> AuditEntry.key_id e = Some key_id ->
  exists k, k ∈ api_keys_db s /\ Key.id k = key_id.

(** What holds of every credential the service itself has produced. *)
Definition key_as_served (k : Key.t) : Prop :=
  Key.status k = "active" /\ is_Some (Key.last_rotated_at k).

(** A store with two credentials of the same id, as the storage allows. *)
Definition store_with_twins : Store :=
  mkStore
    [ Key.mk "key-002" "First" "Redis" "cache" "dev" "active" None None [];
      Key.mk "key-002" "Second" "Redis" "cache" "dev" "active" None None [] ]
    [] [].

(** * Properties *)

(** ** Decimal formatting is injective *)

Lemma uint_of_string_zeros k s :
  NilEmpty.uint_of_string (zeros k ++ s)
  = Nat.iter k Decimal.D0 <$> NilEmpty.uint_of_string s.
Proof.
  induction k as [|k IH].
  - change (zeros 0 ++ s) with s.
    destruct (NilEmpty.uint_of_string s); reflexivity.
  - change (zeros (S k) ++ s) with (String "0"%char (zeros k ++ s)).
    cbn [NilEmpty.uint_of_string]. rewrite IH.
    destruct (NilEmpty.uint_of_string s); reflexivity.
Qed.

Lemma of_uint_leading_zeros k d :
  Nat.of_uint (Nat.iter k Decimal.D0 d) = Nat.of_uint d.
Proof.
  induction k as [|k IH]; simpl; [reflexivity|].
  rewrite <- IH. reflexivity.
Qed.

(** Reading the digits back gives the number, whatever the padding. *)
Lemma fmt_0d_read w n :
  Nat.of_uint <$> NilEmpty.uint_of_string (fmt_0d w n) = Some n.
Proof.
  unfold fmt_0d, str_of_nat.
  rewrite uint_of_string_zeros, NilEmpty.usu. simpl.
  rewrite of_uint_leading_zeros, Unsigned.of_to. reflexivity.
Qed.

Lemma fmt_0d_inj w n m : fmt_0d w n = fmt_0d w m -> n = m.
Proof.
  intros H.
  pose proof (fmt_0d_read w n) as Hn.
  rewrite H, fmt_0d_read in Hn. congruence.
Qed.

Lemma key_id_inj n m : "key-" ++ fmt_03d n = "key-" ++ fmt_03d m -> n = m.
Proof.
  simpl. intros H. injection H as H. exact (fmt_0d_inj 3 n m H).
Qed.

(** ** The search loop *)

Lemma find_key_from_Some db : forall i key_id j k,
  find_key_from i key_id db = Some (j, k) ->
  exists n, j = i + n /\ db !! n = Some k /\ Key.id k = key_id
            /\ forall m k', m < n -> db !! m = Some k' -> Key.id k' <> key_id.
Proof.
  induction db as [|k0 db IH]; intros i key_id j k H; simpl in H; [discriminate|].
  destruct (String.eqb_spec (Key.id k0) key_id) as [Heq|Hne].
  - injection H as <- <-. exists 0. repeat split; [lia | assumption |].
    intros m k' Hm. lia.
  - apply IH in H as (n & -> & Hn & Hid & Hfirst).
    exists (S n). repeat split; [lia | assumption | assumption |].
    intros [|m] k' Hm Hk'; simpl in Hk'.
    + injection Hk' as <-. assumption.
    + apply (Hfirst m); [lia | assumption].
Qed.

Lemma find_key_Some key_id db i k :
  find_key key_id db = Some (i, k) ->
  db !! i = Some k /\ Key.id k = key_id
  /\ forall m k', m < i -> db !! m = Some k' -> Key.id k' <> key_id.
Proof.
  intros H. apply find_key_from_Some in H as (n & -> & H). exact H.
Qed.

Lemma find_key_from_None db : forall i key_id,
  find_key_from i key_id db = None <-> forall k, k ∈ db -> Key.id k <> key_id.
Proof.
  induction db as [|k0 db IH]; intros i key_id; simpl.
  - split; [|reflexivity]. intros _ k Hk. inversion Hk.
  - destruct (String.eqb_spec (Key.id k0) key_id) as [Heq|Hne].
    + split; [discriminate|]. intros H. exfalso. apply (H k0); [left | assumption].
    + rewrite IH. split.
      * intros H k Hk. inversion Hk; subst; auto.
      * intros H k Hk. apply H. right. assumption.
Qed.

Lemma find_key_None key_id db :
  find_key key_id db = None <-> forall k, k ∈ db -> Key.id k <> key_id.
Proof. apply find_key_from_None. Qed.

(** ** What each handler does *)

Ltac run_handler :=
  unfold bind, gets, ret, raise, modify, api_keys_db_append, api_keys_db_update,
    allocations_db_append, audit_log_db_append; simpl.

Lemma create_key_run now1 now2 payload s :
  let key_id := "key-" ++ fmt_03d (length (api_keys_db s) + 1) in
  create_key now1 now2 payload s
  = (Return (RCreated "ok" key_id),
     mkStore
       (api_keys_db s
        ++ [Key.mk key_id (KeyCreate.name payload) (KeyCreate.system_name payload)
              (KeyCreate.system_type payload) (KeyCreate.env payload)
              "active" None (Some now1) []])
       (allocations_db s)
       (audit_log_db s
        ++ [AuditEntry.mk (DateTime.isoformat now2) "create_key" (Some key_id)
              ("Created key '" ++ KeyCreate.name payload ++ "'")])).
Proof. reflexivity. Qed.

Lemma rotate_key_found now1 now2 key_id s i k :
  find_key key_id (api_keys_db s) = Some (i, k) ->
  rotate_key now1 now2 key_id s
  = (Return (RRotated "rotated" key_id),
     mkStore (<[i := Key.set_last_rotated_at now1 k]> (api_keys_db s))
       (allocations_db s)
       (audit_log_db s
        ++ [AuditEntry.mk (DateTime.isoformat now2) "rotate_key" (Some key_id)
              ("Rotated key '" ++ Key.name k ++ "'")])).
Proof.
  intros H. pose proof (find_key_Some _ _ _ _ H) as (Hi & _ & _).
  unfold rotate_key. run_handler. rewrite H. run_handler. rewrite Hi. reflexivity.
Qed.

Lemma rotate_key_missing now1 now2 key_id s :
  find_key key_id (api_keys_db s) = None ->
  rotate_key now1 now2 key_id s = (Raise (mkHTTPException 404 "Key not found"), s).
Proof. intros H. unfold rotate_key. run_handler. rewrite H. reflexivity. Qed.

Lemma allocate_key_found now1 now2 payload s i k :
  find_key (AllocationCreate.key_id payload) (api_keys_db s) = Some (i, k) ->
  let c := AllocationCreate.consumer_id payload in
  let alloc_id := "alloc-" ++ fmt_03d (length (allocations_db s) + 1) in
  allocate_key now1 now2 payload s
  = (Return (RAllocated "allocated" alloc_id),
     mkStore
       (if str_in c (Key.allocated_to k) then api_keys_db s
        else <[i := Key.allocated_to_append c k]> (api_keys_db s))
       (allocations_db s
        ++ [Allocation.mk alloc_id (AllocationCreate.key_id payload)
              (AllocationCreate.consumer_type payload) c
              (AllocationCreate.scope payload) (DateTime.isoformat now1)])
       (audit_log_db s
        ++ [AuditEntry.mk (DateTime.isoformat now2) "allocate_key"
              (Some (AllocationCreate.key_id payload)) ("Allocated to " ++ c)])).
Proof.
  intros H. pose proof (find_key_Some _ _ _ _ H) as (Hi & _ & _).
  unfold allocate_key. run_handler. rewrite H.
  destruct (str_in _ _); run_handler; [reflexivity|].
  rewrite Hi. reflexivity.
Qed.

Lemma allocate_key_missing now1 now2 payload s :
  find_key (AllocationCreate.key_id payload) (api_keys_db s) = None ->
  allocate_key now1 now2 payload s
  = (Raise (mkHTTPException 404 "Key not found"), s).
Proof. intros H. unfold allocate_key. run_handler. rewrite H. reflexivity. Qed.


(** ** Serving a request *)

Section Serving.

Variable admin_env : option string.
Variable dumps : Dict -> string.

Local Abbreviation serve := (handle admin_env dumps).
Local Abbreviation serve_all := (run admin_env dumps).
Local Abbreviation gate := (require_admin admin_env).
Local Abbreviation allowed := (in_ADMIN_KEYS admin_env).

Lemma require_admin_denied api_key s :
  allowed api_key = false ->
  gate api_key s
  = (Raise (mkHTTPException 401 "Invalid or missing admin API key"), s).
Proof. intros H. unfold require_admin. rewrite H. reflexivity. Qed.

Lemma require_admin_allowed api_key s :
  allowed api_key = true -> gate api_key s = (Return api_key, s).
Proof. intros H. unfold require_admin. rewrite H. reflexivity. Qed.

Lemma admin_route_denied api_key endpoint s :
  allowed api_key = false ->
  admin_route admin_env api_key endpoint s
  = (Raise (mkHTTPException 401 "Invalid or missing admin API key"), s).
Proof.
  intros H. unfold admin_route, bind. rewrite require_admin_denied by assumption.
  reflexivity.
Qed.

Lemma admin_route_allowed api_key endpoint s :
  allowed api_key = true ->
  admin_route admin_env api_key endpoint s = endpoint s.
Proof.
  intros H. unfold admin_route, bind. rewrite require_admin_allowed by assumption.
  reflexivity.
Qed.

Lemma effect_of_create_key now1 now2 payload s :
  Effect s (fst (create_key now1 now2 payload s))
           (snd (create_key now1 now2 payload s)).
Proof. rewrite create_key_run. simpl. apply Effect_create; reflexivity. Qed.

Lemma effect_of_allocate_key now1 now2 payload s :
  Effect s (fst (allocate_key now1 now2 payload s))
           (snd (allocate_key now1 now2 payload s)).
Proof.
  destruct (find_key (AllocationCreate.key_id payload) (api_keys_db s))
    as [[i k]|] eqn:Hfind.
  - rewrite (allocate_key_found _ _ _ _ _ _ Hfind). simpl.
    apply find_key_Some in Hfind as (Hi & _ & _).
    apply Effect_allocate; [assumption | reflexivity].
  - rewrite allocate_key_missing by assumption. apply Effect_raise.
Qed.

Lemma effect_of_rotate_key now1 now2 key_id s :
  Effect s (fst (rotate_key now1 now2 key_id s))
           (snd (rotate_key now1 now2 key_id s)).
Proof.
  destruct (find_key key_id (api_keys_db s)) as [[i k]|] eqn:Hfind.
  - rewrite (rotate_key_found _ _ _ _ _ _ Hfind). simpl.
    apply find_key_Some in Hfind as (Hi & Hid & _).
    apply Effect_rotate; [assumption | reflexivity | simpl; congruence].
  - rewrite rotate_key_missing by assumption. apply Effect_raise.
Qed.

Lemma effect_of_get_key key_id s :
  Effect s (fst (get_key key_id s)) (snd (get_key key_id s)).
Proof.
  unfold get_key. run_handler.
  destruct (find_key key_id (api_keys_db s)) as [[i k]|]; simpl; constructor.
Qed.

(** Every request has one of the effects of [Effect]. *)
Lemma handle_effect req s : Effect s (fst (serve req s)) (snd (serve req s)).
Proof.
  destruct req as [api_key c]. unfold handle. simpl.
  destruct c; try (simpl; constructor);
    (destruct (allowed api_key) eqn:Hadm;
     [ rewrite admin_route_allowed by assumption
     | rewrite admin_route_denied by assumption; apply Effect_raise ]).
  - apply effect_of_create_key.
  - simpl. constructor.
  - apply effect_of_get_key.
  - apply effect_of_allocate_key.
  - simpl. constructor.
  - apply effect_of_rotate_key.
  - simpl. constructor.
  - unfold system_request. run_handler. apply Effect_log. reflexivity.
Qed.


(** An invariant of the store kept by every effect holds after any
    sequence of requests. *)
Lemma run_invariant (P : Store -> Prop) :
  (forall s o s', Effect s o s' -> P s -> P s') ->
  forall reqs s, P s -> P (serve_all reqs s).
Proof.
  intros Hstep reqs. induction reqs as [|req reqs IH]; intros s Hs; [exact Hs|].
  simpl. apply IH. eapply Hstep; [apply handle_effect | exact Hs].
Qed.

(** *** The keys and their ids *)

Lemma ids_numbered_snoc db k :
  ids_numbered db ->
  Key.id k = "key-" ++ fmt_03d (length db + 1) ->
  ids_numbered (db ++ [k]).
Proof.
  intros Hdb Hk i k' Hi. apply lookup_snoc_Some in Hi as [[_ Hi]|[-> <-]].
  - apply Hdb. assumption.
  - assumption.
Qed.

Lemma ids_numbered_insert db i k k' :
  ids_numbered db -> db !! i = Some k -> Key.id k' = Key.id k ->
  ids_numbered (<[i := k']> db).
Proof.
  intros Hdb Hi Hid j kj Hj. rewrite list_lookup_insert in Hj.
  destruct (decide (i = j ∧ i < length db)) as [[-> _]|_].
  - injection Hj as <-. rewrite Hid. apply Hdb. assumption.
  - apply Hdb. assumption.
Qed.

Lemma Effect_ids_numbered s o s' :
  Effect s o s' -> ids_numbered (api_keys_db s) -> ids_numbered (api_keys_db s').
Proof.
  intros Heff Hs. destruct Heff; simpl; try assumption.
  - apply ids_numbered_snoc; assumption.
  - destruct (str_in c (Key.allocated_to k)); [assumption|].
    eapply ids_numbered_insert; eauto.
  - eapply ids_numbered_insert; eauto.
Qed.


Lemma initial_ids_numbered : ids_numbered (api_keys_db initial_store).
Proof.
  intros i k Hi. simpl in Hi.
  destruct i as [|[|[|i]]]; simpl in Hi; try discriminate;
    injection Hi as <-; reflexivity.
Qed.

(** The ids already given stay where they are. *)
Lemma Effect_ids_prefix s o s' :
  Effect s o s' -> (Key.id <$> api_keys_db s) `prefix_of` (Key.id <$> api_keys_db s').
Proof.
  intros Heff. destruct Heff; simpl; try reflexivity.
  - rewrite fmap_app. apply prefix_app_r. reflexivity.
  - destruct (str_in c (Key.allocated_to k)); [reflexivity|].
    rewrite list_fmap_insert. simpl.
    rewrite list_insert_id; [reflexivity|].
    rewrite list_lookup_fmap, H. reflexivity.
  - rewrite list_fmap_insert. simpl.
    rewrite list_insert_id; [reflexivity|].
    rewrite list_lookup_fmap, H. reflexivity.
Qed.


End Serving.

(** ** Failure and authorization *)

Section Gate.

Variable admin_env : option string.
Variable dumps : Dict -> string.

(** C5. An operation that fails leaves the store as it was: no field of a
    credential or an allocation changes and the audit log gets no entry.
    In particular [rotate] with an id that no credential has fails with
    404 "Key not found" and changes nothing. *)
Theorem failed_operation_is_noop req s :
  (forall e s', handle admin_env dumps req s = (Raise e, s') -> s' = s)
  /\ (forall now1 now2 key_id,
        call req = POST_rotate now1 now2 key_id ->
        in_ADMIN_KEYS admin_env (x_admin_api_key req) = true ->
        (forall k, k ∈ api_keys_db s -> Key.id k <> key_id) ->
        handle admin_env dumps req s = (Raise (mkHTTPException 404 "Key not found"), s)).
Proof.
  split.
  - intros e s' H.
    pose proof (handle_effect admin_env dumps req s) as Heff.
    rewrite H in Heff. simpl in Heff. inversion Heff. reflexivity.
  - intros now1 now2 key_id Hcall Hadm Hmiss.
    destruct req as [api_key c]. simpl in Hcall, Hadm. subst c.
    unfold handle. simpl. rewrite admin_route_allowed by assumption.
    apply rotate_key_missing, find_key_None. assumption.
Qed.

(** C6. A privileged operation (create, rotate, allocate, list, query of
    the audit log, and the other routes behind the gate) asked by a
    principal the gate denies fails with 401, and the store, audit log
    included, is untouched: the gate runs before the endpoint. *)
Theorem denied_principal_unauthorized req s :
  privileged (call req) = true ->
  in_ADMIN_KEYS admin_env (x_admin_api_key req) = false ->
  handle admin_env dumps req s
  = (Raise (mkHTTPException 401 "Invalid or missing admin API key"), s).
Proof.
  intros Hpriv Hdeny. destruct req as [api_key c]. simpl in Hpriv, Hdeny.
  unfold handle. simpl.
  destruct c; try discriminate Hpriv; apply admin_route_denied; assumption.
Qed.

End Gate.

(** ** Rotation *)

(** C9. A successful [rotate_key] touches one credential, the first with
    the given id, and only its [last_rotated_at]; every other field of it,
    every other credential and every allocation stay as they were, and the
    audit log gets exactly one entry at its end. *)
Theorem rotate_key_frame now1 now2 key_id s r s' :
  rotate_key now1 now2 key_id s = (Return r, s') ->
  exists (i : nat) (k k' : Key.t) (e : AuditEntry.t),
    api_keys_db s !! i = Some k /\ Key.id k = key_id
    /\ api_keys_db s' = <[i := k']> (api_keys_db s)
    /\ Key.last_rotated_at k' = Some now1
    /\ Key.id k' = Key.id k /\ Key.name k' = Key.name k
    /\ Key.system_name k' = Key.system_name k
    /\ Key.system_type k' = Key.system_type k
    /\ Key.env k' = Key.env k /\ Key.status k' = Key.status k
    /\ Key.last_used_at k' = Key.last_used_at k
    /\ Key.allocated_to k' = Key.allocated_to k
    /\ (forall j, j <> i -> api_keys_db s' !! j = api_keys_db s !! j)
    /\ length (api_keys_db s') = length (api_keys_db s)
    /\ allocations_db s' = allocations_db s
    /\ audit_log_db s' = (audit_log_db s ++ [e])%list.
Proof.
  intros H.
  destruct (find_key key_id (api_keys_db s)) as [[i k]|] eqn:Hfind.
  - rewrite (rotate_key_found _ _ _ _ _ _ Hfind) in H.
    injection H as _ <-. simpl.
    apply find_key_Some in Hfind as (Hi & Hid & _).
    exists i, k, (Key.set_last_rotated_at now1 k). eexists.
    repeat split; try assumption; try reflexivity.
    + intros j Hj. apply list_lookup_insert_ne. congruence.
    + apply length_insert.
  - rewrite rotate_key_missing in H by assumption. discriminate.
Qed.

(** ** The audit log query *)

(** [l[-n:]] for a positive [n] drops all but the last [n] elements. *)
Lemma slice_from_neg_drop {A} (n : nat) (l : list A) :
  slice_from (- Z.of_nat (S n)) l = drop (length l - S n) l.
Proof.
  unfold slice_from.
  replace (- Z.of_nat (S n) <? 0)%Z with true by (symmetry; apply Z.ltb_lt; lia).
  f_equal. lia.
Qed.

(** C10. [get_audit_log] returns the last 100 entries of the log (all of
    them when there are fewer), in the order they were appended; it does
    not change the store. *)
Theorem get_audit_log_last_100 s :
  exists older entries : list AuditEntry.t,
    get_audit_log s = (Return (RAuditLog entries), s)
    /\ audit_log_db s = (older ++ entries)%list
    /\ length entries = Nat.min 100 (length (audit_log_db s)).
Proof.
  exists (take (length (audit_log_db s) - 100) (audit_log_db s)),
         (drop (length (audit_log_db s) - 100) (audit_log_db s)).
  split; [|split].
  - unfold get_audit_log. run_handler.
    change (-100)%Z with (- Z.of_nat 100)%Z. rewrite slice_from_neg_drop. reflexivity.
  - symmetry. apply take_drop.
  - rewrite length_drop. lia.
Qed.

(** ** Lists of strings *)

Lemma str_in_spec x l : str_in x l = true <-> x ∈ l.
Proof.
  induction l as [|y l IH]; simpl.
  - split; [discriminate|]. intros H. inversion H.
  - destruct (String.eqb_spec y x) as [->|Hne].
    + split; [intros _; left | reflexivity].
    + rewrite IH. split; [intros H; right; exact H|].
      intros H. inversion H; subst; [congruence | assumption].
Qed.


(** ** Histories: any sequence of requests *)

Section Histories.

Variable admin_env : option string.
Variable dumps : Dict -> string.

Local Abbreviation serve := (handle admin_env dumps).
Local Abbreviation serve_all := (run admin_env dumps).
Local Abbreviation allowed := (in_ADMIN_KEYS admin_env).

(** *** Credential ids *)

(** The numbering survives every request, from any store that has it and
    whatever the statuses of its credentials. *)
Lemma run_ids_numbered_from s0 reqs :
  ids_numbered (api_keys_db s0) ->
  ids_numbered (api_keys_db (serve_all reqs s0)).
Proof.
  apply (run_invariant admin_env dumps (fun s => ids_numbered (api_keys_db s))).
  apply Effect_ids_numbered.
Qed.

Lemma run_ids_numbered reqs :
  ids_numbered (api_keys_db (serve_all reqs initial_store)).
Proof. apply run_ids_numbered_from, initial_ids_numbered. Qed.

Lemma ids_numbered_fresh db :
  ids_numbered db -> "key-" ++ fmt_03d (length db + 1) ∉ (Key.id <$> db).
Proof.
  intros Hdb Hin. apply list_elem_of_fmap in Hin as (k & Hid & Hk).
  apply list_elem_of_lookup in Hk as [i Hi].
  pose proof (lookup_lt_Some _ _ _ Hi) as Hlt.
  apply Hdb in Hi. rewrite Hi in Hid. apply key_id_inj in Hid. lia.
Qed.


(** *** The audit log *)

Lemma Effect_audit_suffix s o s' :
  Effect s o s' ->
  exists appended : list AuditEntry.t,
    audit_log_db s' = (audit_log_db s ++ appended)%list.
Proof.
  intros Heff. destruct Heff; simpl; try (eexists; reflexivity);
    exists []; rewrite app_nil_r; reflexivity.
Qed.

Lemma run_audit_prefix reqs : forall s,
  audit_log_db s `prefix_of` audit_log_db (serve_all reqs s).
Proof.
  induction reqs as [|req reqs IH]; intros s; [reflexivity|].
  simpl. etransitivity; [|apply IH].
  destruct (Effect_audit_suffix _ _ _ (handle_effect admin_env dumps req s))
    as [appended ->].
  apply prefix_app_r. reflexivity.
Qed.

(** C4, as the code has it.  An audit entry has no sequence field; its
    position in [audit_log_db] is its sequence number.  Serving a request
    keeps every entry already in the log at its position and appends at
    the end: exactly one entry when a writing operation (create, allocate,
    rotate, system request) succeeds, none when a read succeeds, and none
    when the operation fails.  So the positions of the appended entries
    are consecutive, and over any sequence of requests the earlier log is a
    prefix of the later one. *)
Theorem audit_log_append_only req s :
  (exists appended : list AuditEntry.t,
     audit_log_db (snd (serve req s)) = (audit_log_db s ++ appended)%list
     /\ length appended
        = match fst (serve req s) with
          | Return _ => if is_mutation (call req) then 1 else 0
          | Raise _ => 0
          end)
  /\ (forall reqs, audit_log_db s `prefix_of` audit_log_db (serve_all reqs s)).
Proof.
  split; [|intros reqs; apply run_audit_prefix].
  destruct req as [api_key c]. unfold handle. simpl.
  destruct c; try (exists []; rewrite app_nil_r; split; reflexivity);
    (destruct (allowed api_key) eqn:Hadm;
     [ rewrite admin_route_allowed by assumption
     | rewrite admin_route_denied by assumption;
       exists []; rewrite app_nil_r; split; reflexivity ]).
  - rewrite create_key_run. simpl. eexists. split; reflexivity.
  - exists []. rewrite app_nil_r. split; reflexivity.
  - unfold get_key. run_handler.
    destruct (find_key key_id (api_keys_db s)) as [[i k]|]; simpl;
      exists []; rewrite app_nil_r; split; reflexivity.
  - destruct (find_key (AllocationCreate.key_id payload) (api_keys_db s))
      as [[i k]|] eqn:Hfind.
    + rewrite (allocate_key_found _ _ _ _ _ _ Hfind). simpl.
      eexists. split; reflexivity.
    + rewrite allocate_key_missing by assumption. simpl.
      exists []. rewrite app_nil_r. split; reflexivity.
  - exists []. rewrite app_nil_r. split; reflexivity.
  - destruct (find_key key_id (api_keys_db s)) as [[i k]|] eqn:Hfind.
    + rewrite (rotate_key_found _ _ _ _ _ _ Hfind). simpl.
      eexists. split; reflexivity.
    + rewrite rotate_key_missing by assumption. simpl.
      exists []. rewrite app_nil_r. split; reflexivity.
  - exists []. rewrite app_nil_r. split; reflexivity.
  - unfold system_request. run_handler. eexists. split; reflexivity.
Qed.

(** *** Rotations *)

Lemma rotation_count_app key_id (log more : list AuditEntry.t) :
  rotation_count key_id (log ++ more)
  = rotation_count key_id log + rotation_count key_id more.
Proof. unfold rotation_count. rewrite List.filter_app, length_app. reflexivity. Qed.

Lemma rotation_count_prefix key_id (log log' : list AuditEntry.t) :
  log `prefix_of` log' -> rotation_count key_id log <= rotation_count key_id log'.
Proof. intros [more ->]. rewrite rotation_count_app. lia. Qed.

(** C1, as the code has it.  A credential has no version number.  A
    successful [rotate_key] sets [last_rotated_at] of the credential to the
    time of the call and records one [rotate_key] entry for its id, so the
    number of rotations the audit log records for that id grows by exactly
    1; and over any sequence of requests that number never decreases. *)
Theorem rotate_key_rotation_count key_id :
  (forall now1 now2 s r s',
     rotate_key now1 now2 key_id s = (Return r, s') ->
     rotation_count key_id (audit_log_db s')
     = rotation_count key_id (audit_log_db s) + 1
     /\ exists i k, find_key key_id (api_keys_db s) = Some (i, k)
                    /\ api_keys_db s' !! i = Some (Key.set_last_rotated_at now1 k))
  /\ (forall reqs s,
        rotation_count key_id (audit_log_db s)
        <= rotation_count key_id (audit_log_db (serve_all reqs s))).
Proof.
  split.
  - intros now1 now2 s r s' H.
    destruct (find_key key_id (api_keys_db s)) as [[i k]|] eqn:Hfind.
    + rewrite (rotate_key_found _ _ _ _ _ _ Hfind) in H. injection H as _ <-.
      simpl. split.
      * rewrite rotation_count_app. f_equal.
        unfold rotation_count, is_rotation_of. simpl.
        rewrite String.eqb_refl. reflexivity.
      * exists i, k. split; [reflexivity|].
        apply find_key_Some in Hfind as (Hi & _ & _).
        apply list_lookup_insert_eq. eapply lookup_lt_Some. exact Hi.
    + rewrite rotate_key_missing in H by assumption. discriminate.
  - intros reqs s. apply rotation_count_prefix, run_audit_prefix.
Qed.

(** *** Allocations *)





End Histories.

(** ** Allocation against any credential *)

(** The outcome of [allocate_key] is decided by the search alone: 404
    "Key not found", with nothing changed, when no credential has the id,
    and otherwise success with one allocation record appended.  No field
    of the credential found is consulted. *)
Lemma allocate_key_outcome now1 now2 payload s :
  match find_key (AllocationCreate.key_id payload) (api_keys_db s) with
  | None =>
      allocate_key now1 now2 payload s
      = (Raise (mkHTTPException 404 "Key not found"), s)
  | Some (i, k) =>
      exists a : Allocation.t,
        fst (allocate_key now1 now2 payload s)
        = Return (RAllocated "allocated" (Allocation.id a))
        /\ Allocation.key_id a = Key.id k
        /\ allocations_db (snd (allocate_key now1 now2 payload s))
           = (allocations_db s ++ [a])%list
  end.
Proof.
  destruct (find_key (AllocationCreate.key_id payload) (api_keys_db s))
    as [[i k]|] eqn:Hfind.
  - rewrite (allocate_key_found _ _ _ _ _ _ Hfind). simpl.
    apply find_key_Some in Hfind as (_ & Hid & _).
    exists (Allocation.mk
              ("alloc-" ++ fmt_03d (length (allocations_db s) + 1))
              (AllocationCreate.key_id payload)
              (AllocationCreate.consumer_type payload)
              (AllocationCreate.consumer_id payload)
              (AllocationCreate.scope payload) (DateTime.isoformat now1)).
    split; [reflexivity|]. split; [|reflexivity]. simpl. congruence.
  - apply allocate_key_missing. assumption.
Qed.

(** ** Listing *)

(** C8, as the code has it.  [list_keys] takes no filter: it returns every
    credential of the store, which is what the design's [list] returns when
    no filter is supplied, and leaves the store as it is.  The order is the
    order of creation: [create_key] puts the new credential last, and
    whatever request is served the ids listed before are listed again, at
    the same positions. *)
Theorem list_keys_returns_all (admin_env : option string) (dumps : Dict -> string) s :
  list_keys s = (Return (RKeys (api_keys_db s)), s)
  /\ spec_list_keys KeyFilter.none s
  /\ (forall now1 now2 payload,
        exists k : Key.t,
          fst (list_keys (snd (create_key now1 now2 payload s)))
          = Return (RKeys (api_keys_db s ++ [k])))
  /\ (forall req,
        (Key.id <$> api_keys_db s)
          `prefix_of` (Key.id <$> api_keys_db (snd (handle admin_env dumps req s)))).
Proof.
  split; [reflexivity|]. split; [|split].
  - unfold spec_list_keys. simpl. do 2 f_equal.
    induction (api_keys_db s) as [|k db IH]; simpl; [reflexivity|].
    f_equal. exact IH.
  - intros now1 now2 payload. rewrite create_key_run. simpl. eexists. reflexivity.
  - intros req. eapply Effect_ids_prefix, handle_effect.
Qed.

(** * The design document against the code, on concrete stores *)

(** C1. Rotating [key-001] in the initial store succeeds, yet the
    credential has no version before or after: the design's statement
    fails there. *)
Lemma rotate_key_has_no_version :
  rotate_key noon noon "key-001" initial_store
  = (Return (RRotated "rotated" "key-001"),
     snd (rotate_key noon noon "key-001" initial_store))
  /\ ~ spec_rotate_increments_version noon noon "key-001" initial_store.
Proof.
  split; [reflexivity|]. intros H.
  destruct (H _ _ eq_refl 0 _ eq_refl) as (k' & v & _ & Hv & _).
  discriminate Hv.
Qed.

Lemma rotate_key_rotation_count_witness :
  rotation_count "key-001"
    (audit_log_db (snd (rotate_key noon noon "key-001" initial_store)))
  = rotation_count "key-001" (audit_log_db initial_store) + 1.
Proof.
  exact (proj1 (proj1 (rotate_key_rotation_count None sample_dumps "key-001")
                  noon noon initial_store _ _ eq_refl)).
Defined.


(** C4. The entry that creating a key appends to the audit log has the keys
    [timestamp], [action], [key_id] and [details], and no sequence
    number. *)
Lemma audit_entry_without_sequence :
  let log := audit_log_db (snd (handle None sample_dumps create_K1 initial_store)) in
  length log = 1
  /\ ~ (forall e, e ∈ log -> spec_entry_has_sequence e).
Proof.
  split; [reflexivity|]. intros H.
  destruct (H _ (list_elem_of_here _ _)) as [n Hn].
  discriminate Hn.
Qed.

Lemma failed_operation_is_noop_witness :
  let req := mkRequest demo_admin (POST_rotate noon noon "key-999") in
  handle None sample_dumps req initial_store
  = (Raise (mkHTTPException 404 "Key not found"), initial_store)
  /\ snd (handle None sample_dumps req initial_store) = initial_store.
Proof.
  intros req. split.
  - apply (proj2 (failed_operation_is_noop None sample_dumps req initial_store)
             noon noon "key-999"); [reflexivity | reflexivity |].
    apply find_key_None. reflexivity.
  - exact (proj1 (failed_operation_is_noop None sample_dumps req initial_store)
             _ _ eq_refl).
Defined.

Lemma denied_principal_unauthorized_witness :
  handle None sample_dumps
    (mkRequest (Some "guessed-key") (POST_rotate noon noon "key-001")) initial_store
  = (Raise (mkHTTPException 401 "Invalid or missing admin API key"), initial_store).
Proof.
  apply denied_principal_unauthorized; reflexivity.
Defined.

Lemma spec_ids_unique_NoDup db : spec_ids_unique db <-> NoDup (Key.id <$> db).
Proof.
  rewrite NoDup_alt. split.
  - intros H i j x Hi Hj. rewrite list_lookup_fmap in Hi, Hj.
    destruct (db !! i) as [ki|] eqn:Hki; [|discriminate].
    destruct (db !! j) as [kj|] eqn:Hkj; [|discriminate].
    simpl in Hi, Hj. destruct (decide (i = j)) as [|Hne]; [assumption|].
    exfalso. apply (H i j ki kj Hne Hki Hkj). congruence.
  - intros H i j k1 k2 Hne Hi Hj Heq. apply Hne.
    apply (H i j (Key.id k1)); rewrite list_lookup_fmap.
    + rewrite Hi. reflexivity.
    + rewrite Hj. simpl. congruence.
Qed.

(** A call of [create_key] left alone runs its three statements in a row,
    and that is [create_key]. *)
Lemma create_key_alone now1 now2 payload s :
  let c := mkCreateCall now1 now2 payload BeforeId in
  exists r s',
    create_key now1 now2 payload s = (Return r, s')
    /\ interleave [0; 0; 0] [c] s = ([at_point c (Returned r)], s').
Proof. intros c. rewrite create_key_run. do 2 eexists. split; reflexivity. Qed.


(** C8. Asked for the credentials of environment [dev], of which the
    initial store has none, the design's [list] returns nothing, while
    [list_keys] returns the three credentials of the store. *)
Lemma list_keys_ignores_filter :
  let f := KeyFilter.mk None (Some "dev") None in
  fst (list_keys initial_store) = Return (RKeys initial_api_keys_db)
  /\ List.filter (KeyFilter.matches f) (api_keys_db initial_store) = []
  /\ ~ spec_list_keys f initial_store.
Proof.
  split; [reflexivity|]. split; [reflexivity|]. intros H.
  unfold spec_list_keys in H. discriminate H.
Qed.

Lemma rotate_key_frame_witness :
  exists (i : nat) (k k' : Key.t) (e : AuditEntry.t),
    let s := initial_store in
    let s' := snd (rotate_key noon noon "key-002" initial_store) in
    api_keys_db s !! i = Some k /\ Key.id k = "key-002"
    /\ api_keys_db s' = <[i := k']> (api_keys_db s)
    /\ Key.last_rotated_at k' = Some noon
    /\ Key.id k' = Key.id k /\ Key.name k' = Key.name k
    /\ Key.system_name k' = Key.system_name k
    /\ Key.system_type k' = Key.system_type k
    /\ Key.env k' = Key.env k /\ Key.status k' = Key.status k
    /\ Key.last_used_at k' = Key.last_used_at k
    /\ Key.allocated_to k' = Key.allocated_to k
    /\ (forall j, j <> i -> api_keys_db s' !! j = api_keys_db s !! j)
    /\ length (api_keys_db s') = length (api_keys_db s)
    /\ allocations_db s' = allocations_db s
    /\ audit_log_db s' = (audit_log_db s ++ [e])%list.
Proof.
  exact (rotate_key_frame noon noon "key-002" initial_store _ _ eq_refl).
Defined.

(** * Further properties of the handlers *)

(** ** The search loop, from the other side *)

Lemma find_key_from_intro db : forall j key_id n k,
  db !! n = Some k -> Key.id k = key_id ->
  (forall m k', m < n -> db !! m = Some k' -> Key.id k' <> key_id) ->
  find_key_from j key_id db = Some (j + n, k).
Proof.
  induction db as [|k0 db IH]; intros j key_id n k Hn Hid Hfirst; [discriminate|].
  simpl. destruct n as [|n]; simpl in Hn.
  - injection Hn as ->. rewrite (proj2 (String.eqb_eq _ _) Hid).
    rewrite Nat.add_0_r. reflexivity.
  - destruct (String.eqb_spec (Key.id k0) key_id) as [Heq|_].
    + exfalso. apply (Hfirst 0 k0); [lia | reflexivity | exact Heq].
    + rewrite (IH (S j) key_id n k Hn Hid).
      * f_equal. f_equal. lia.
      * intros m k' Hm Hk'. apply (Hfirst (S m) k'); [lia | exact Hk'].
Qed.

Lemma find_key_intro key_id db i k :
  db !! i = Some k -> Key.id k = key_id ->
  (forall m k', m < i -> db !! m = Some k' -> Key.id k' <> key_id) ->
  find_key key_id db = Some (i, k).
Proof. intros. unfold find_key. rewrite (find_key_from_intro db 0 key_id i k); auto. Qed.

Lemma find_key_is_Some key_id db k :
  k ∈ db -> Key.id k = key_id -> exists i k', find_key key_id db = Some (i, k').
Proof.
  intros Hk Hid. destruct (find_key key_id db) as [[i k']|] eqn:Hfind; [eauto|].
  exfalso. exact (proj1 (find_key_None _ _) Hfind k Hk Hid).
Qed.

(** ** Growth of the key list *)

Lemma same_identity_refl k : same_identity k k.
Proof. repeat split. Qed.

Lemma same_identity_trans k1 k2 k3 :
  same_identity k1 k2 -> same_identity k2 k3 -> same_identity k1 k3.
Proof.
  unfold same_identity. intros (?&?&?&?&?&?&?) (?&?&?&?&?&?&?).
  repeat split; congruence.
Qed.

Lemma keys_extend_refl db : keys_extend db db.
Proof.
  intros i k Hi. exists k. split; [exact Hi|]. split; [apply same_identity_refl|].
  reflexivity.
Qed.

Lemma keys_extend_trans db1 db2 db3 :
  keys_extend db1 db2 -> keys_extend db2 db3 -> keys_extend db1 db3.
Proof.
  intros H12 H23 i k1 Hi.
  destruct (H12 i k1 Hi) as (k2 & Hi2 & Hid12 & Hp12).
  destruct (H23 i k2 Hi2) as (k3 & Hi3 & Hid23 & Hp23).
  exists k3. split; [exact Hi3|]. split.
  - eapply same_identity_trans; eassumption.
  - etransitivity; eassumption.
Qed.

Lemma keys_extend_snoc db k : keys_extend db (db ++ [k]).
Proof.
  intros i k0 Hi. exists k0. split; [|split].
  - apply lookup_app_l_Some. exact Hi.
  - apply same_identity_refl.
  - reflexivity.
Qed.

Lemma keys_extend_insert db i k k' :
  db !! i = Some k -> same_identity k k' ->
  Key.allocated_to k `prefix_of` Key.allocated_to k' ->
  keys_extend db (<[i := k']> db).
Proof.
  intros Hi Hid Hpre j kj Hj. destruct (decide (i = j)) as [->|Hne].
  - exists k'. rewrite Hi in Hj. injection Hj as <-. split; [|split; assumption].
    apply list_lookup_insert_eq. eapply lookup_lt_Some. exact Hi.
  - exists kj. split; [|split].
    + rewrite list_lookup_insert_ne by assumption. exact Hj.
    + apply same_identity_refl.
    + reflexivity.
Qed.

Lemma keys_extend_length db db' : keys_extend db db' -> length db <= length db'.
Proof.
  intros H. destruct (decide (length db = 0)) as [->|Hne]; [lia|].
  destruct (lookup_lt_is_Some_2 db (length db - 1)) as [k Hk]; [lia|].
  destruct (H _ _ Hk) as (k' & Hk' & _). apply lookup_lt_Some in Hk'. lia.
Qed.

(** A credential that an id resolves to keeps being the one the id
    resolves to. *)
Lemma keys_extend_find_key db db' key_id i k :
  keys_extend db db' -> find_key key_id db = Some (i, k) ->
  exists k', find_key key_id db' = Some (i, k') /\ same_identity k k'
             /\ Key.allocated_to k `prefix_of` Key.allocated_to k'.
Proof.
  intros Hext Hfind. apply find_key_Some in Hfind as (Hi & Hid & Hfirst).
  destruct (Hext i k Hi) as (k' & Hi' & Hsame & Hpre).
  exists k'. split; [|split; assumption].
  apply find_key_intro; [exact Hi' | |].
  - destruct Hsame as (-> & _). exact Hid.
  - intros m km' Hm Hkm'.
    destruct (lookup_lt_is_Some_2 db m) as [km Hkm].
    { apply lookup_lt_Some in Hi. lia. }
    destruct (Hext m km Hkm) as (km2 & Hkm2 & (Hidm & _) & _).
    rewrite Hkm' in Hkm2. injection Hkm2 as <-. rewrite Hidm.
    exact (Hfirst m km Hm Hkm).
Qed.

Lemma keys_extend_elem_of db db' k :
  keys_extend db db' -> k ∈ db -> exists k', k' ∈ db' /\ Key.id k' = Key.id k.
Proof.
  intros Hext Hk. apply list_elem_of_lookup in Hk as [i Hi].
  destruct (Hext i k Hi) as (k' & Hi' & (Hid & _) & _).
  exists k'. split; [|exact Hid]. apply list_elem_of_lookup. eauto.
Qed.

(** The key list after each of the writing handlers. *)

Lemma create_key_keys_extend now1 now2 payload s :
  keys_extend (api_keys_db s) (api_keys_db (snd (create_key now1 now2 payload s))).
Proof. rewrite create_key_run. simpl. apply keys_extend_snoc. Qed.

Lemma allocate_key_keys_extend now1 now2 payload s :
  keys_extend (api_keys_db s) (api_keys_db (snd (allocate_key now1 now2 payload s))).
Proof.
  destruct (find_key (AllocationCreate.key_id payload) (api_keys_db s))
    as [[i k]|] eqn:Hfind.
  - rewrite (allocate_key_found _ _ _ _ _ _ Hfind). simpl.
    apply find_key_Some in Hfind as (Hi & _ & _).
    destruct (str_in _ _); [apply keys_extend_refl|].
    eapply keys_extend_insert; [exact Hi | repeat split |].
    simpl. apply prefix_app_r. reflexivity.
  - rewrite allocate_key_missing by assumption. apply keys_extend_refl.
Qed.

Lemma rotate_key_keys_extend now1 now2 key_id s :
  keys_extend (api_keys_db s) (api_keys_db (snd (rotate_key now1 now2 key_id s))).
Proof.
  destruct (find_key key_id (api_keys_db s)) as [[i k]|] eqn:Hfind.
  - rewrite (rotate_key_found _ _ _ _ _ _ Hfind). simpl.
    apply find_key_Some in Hfind as (Hi & _ & _).
    eapply keys_extend_insert; [exact Hi | repeat split | reflexivity].
  - rewrite rotate_key_missing by assumption. apply keys_extend_refl.
Qed.

(** ** Reasoning by handler *)

Section ByHandler.

Variable admin_env : option string.
Variable dumps : Dict -> string.

(** What holds of the four writing handlers, and of every outcome that
    leaves the store alone, holds of every request. *)
Lemma handle_cases (P : Outcome Response * Store -> Prop) req s :
  (forall o, P (o, s)) ->
  (forall now1 now2 payload, P (create_key now1 now2 payload s)) ->
  (forall now1 now2 payload, P (allocate_key now1 now2 payload s)) ->
  (forall now1 now2 key_id, P (rotate_key now1 now2 key_id s)) ->
  (forall now payload, P (system_request dumps now payload s)) ->
  P (handle admin_env dumps req s).
Proof.
  intros Hsame Hcreate Hallocate Hrotate Hlog.
  destruct req as [api_key c]. unfold handle. simpl.
  destruct c; try apply Hsame;
    (destruct (in_ADMIN_KEYS admin_env api_key) eqn:Hadm;
     [ rewrite admin_route_allowed by assumption
     | rewrite admin_route_denied by assumption; apply Hsame ]);
    try apply Hsame; auto.
  unfold get_key. run_handler.
  destruct (find_key key_id (api_keys_db s)) as [[i k]|]; apply Hsame.
Qed.

(** An invariant of the store kept by the four writing handlers holds
    after any sequence of requests. *)
Lemma run_keeps (P : Store -> Prop) :
  (forall s now1 now2 payload, P s -> P (snd (create_key now1 now2 payload s))) ->
  (forall s now1 now2 payload, P s -> P (snd (allocate_key now1 now2 payload s))) ->
  (forall s now1 now2 key_id, P s -> P (snd (rotate_key now1 now2 key_id s))) ->
  (forall s now payload, P s -> P (snd (system_request dumps now payload s))) ->
  forall reqs s, P s -> P (run admin_env dumps reqs s).
Proof.
  intros Hcreate Hallocate Hrotate Hlog reqs.
  induction reqs as [|req reqs IH]; intros s Hs; [exact Hs|].
  simpl. apply IH.
  apply (handle_cases (fun os => P (snd os))); intros;
    [ exact Hs | apply Hcreate | apply Hallocate | apply Hrotate | apply Hlog ];
    exact Hs.
Qed.

End ByHandler.

(** ** The admin gate and the reading routes *)

(** [require_admin] returns the value it is handed when that is the one
    member of [ADMIN_KEYS], and raises 401 otherwise, [None] included; the
    store is never touched. *)
Lemma require_admin_accepts admin_env api_key s :
  require_admin admin_env api_key s
  = if decide (api_key = Some (default "demo-admin-key-change-me" admin_env))
    then (Return api_key, s)
    else (Raise (mkHTTPException 401 "Invalid or missing admin API key"), s).
Proof.
  unfold require_admin, in_ADMIN_KEYS, ADMIN_KEYS.
  destruct api_key as [k|]; [|reflexivity].
  destruct (decide (Some k = Some (default "demo-admin-key-change-me" admin_env)))
    as [Heq|Hne].
  - injection Heq as ->. rewrite bool_decide_eq_true_2; [reflexivity|].
    apply elem_of_singleton. reflexivity.
  - rewrite bool_decide_eq_false_2; [reflexivity|].
    intros Hin. apply elem_of_singleton in Hin. congruence.
Qed.

(** X2. A request that is not one of the four POST routes leaves the store
    exactly as it was, whether it succeeds, is refused by the gate, or
    (for [get_key]) finds nothing. *)
Theorem reads_leave_store admin_env dumps req s :
  is_mutation (call req) = false -> snd (handle admin_env dumps req s) = s.
Proof.
  intros Hread. destruct req as [api_key c]. simpl in Hread.
  unfold handle. simpl.
  destruct c; try discriminate Hread; try reflexivity;
    (destruct (in_ADMIN_KEYS admin_env api_key) eqn:Hadm;
     [ rewrite admin_route_allowed by assumption
     | rewrite admin_route_denied by assumption; reflexivity ]);
    try reflexivity.
  unfold get_key. run_handler.
  destruct (find_key key_id (api_keys_db s)) as [[i k]|]; reflexivity.
Qed.

(** X3. [get_key] answers with the first credential of the list that has
    the id, and with 404 "Key not found" exactly when no credential has
    it. *)
Theorem get_key_first_match key_id s :
  match fst (get_key key_id s) with
  | Return r =>
      exists i k, r = RKey k /\ api_keys_db s !! i = Some k /\ Key.id k = key_id
                  /\ forall m k', m < i -> api_keys_db s !! m = Some k' ->
                                  Key.id k' <> key_id
  | Raise e =>
      e = mkHTTPException 404 "Key not found"
      /\ forall k, k ∈ api_keys_db s -> Key.id k <> key_id
  end.
Proof.
  unfold get_key. run_handler.
  destruct (find_key key_id (api_keys_db s)) as [[i k]|] eqn:Hfind; simpl.
  - exists i, k. split; [reflexivity|]. apply find_key_Some. exact Hfind.
  - split; [reflexivity|]. apply find_key_None. exact Hfind.
Qed.

(** X4. The number of credentials changes only when an admitted
    [POST /keys] is served, and then by one; no request removes a
    credential.  [/health], which needs no key, reports that number. *)
Theorem keys_count_tracks_creates admin_env dumps req s :
  let s' := snd (handle admin_env dumps req s) in
  length (api_keys_db s')
  = length (api_keys_db s)
    + match call req with
      | POST_keys _ _ _ =>
          if in_ADMIN_KEYS admin_env (x_admin_api_key req) then 1 else 0
      | _ => 0
      end
  /\ forall api_key now,
       handle admin_env dumps (mkRequest api_key (GET_health now)) s'
       = (Return (RHealth "healthy" (DateTime.isoformat now) (length (api_keys_db s'))),
          s').
Proof.
  intros s'. split; [|reflexivity]. subst s'.
  destruct req as [api_key c]. unfold handle. simpl.
  destruct c; try (simpl; lia);
    (destruct (in_ADMIN_KEYS admin_env api_key) eqn:Hadm;
     [ rewrite admin_route_allowed by assumption
     | rewrite admin_route_denied by assumption; simpl; lia ]);
    try (simpl; lia).
  - rewrite create_key_run. simpl. rewrite length_app. simpl. lia.
  - unfold get_key. run_handler.
    destruct (find_key key_id (api_keys_db s)) as [[i k]|]; simpl; lia.
  - destruct (find_key (AllocationCreate.key_id payload) (api_keys_db s))
      as [[i k]|] eqn:Hfind.
    + rewrite (allocate_key_found _ _ _ _ _ _ Hfind). simpl.
      destruct (str_in _ _); [lia|]. rewrite length_insert. lia.
    + rewrite allocate_key_missing by assumption. simpl. lia.
  - destruct (find_key key_id (api_keys_db s)) as [[i k]|] eqn:Hfind.
    + rewrite (rotate_key_found _ _ _ _ _ _ Hfind). simpl.
      rewrite length_insert. lia.
    + rewrite rotate_key_missing by assumption. simpl. lia.
Qed.

(** ** Reading back what was written *)

Lemma get_key_found key_id s i k :
  find_key key_id (api_keys_db s) = Some (i, k) ->
  get_key key_id s = (Return (RKey k), s).
Proof. intros H. unfold get_key. run_handler. rewrite H. reflexivity. Qed.

Lemma find_key_insert key_id db i k k' :
  find_key key_id db = Some (i, k) -> Key.id k' = Key.id k ->
  find_key key_id (<[i := k']> db) = Some (i, k').
Proof.
  intros Hfind Hid. apply find_key_Some in Hfind as (Hi & Hk & Hfirst).
  apply find_key_intro.
  - apply list_lookup_insert_eq. eapply lookup_lt_Some. exact Hi.
  - congruence.
  - intros m km Hm Hkm. rewrite list_lookup_insert_ne in Hkm by lia.
    exact (Hfirst m km Hm Hkm).
Qed.

Lemma find_key_snoc_fresh key_id db k :
  Key.id k = key_id -> key_id ∉ (Key.id <$> db) ->
  find_key key_id (db ++ [k]) = Some (length db, k).
Proof.
  intros Hid Hfresh. apply find_key_intro.
  - apply list_lookup_middle. reflexivity.
  - exact Hid.
  - intros m km Hm Hkm Heq. apply Hfresh.
    rewrite lookup_app_l in Hkm by exact Hm.
    apply list_elem_of_fmap. exists km. split; [congruence|].
    apply list_elem_of_lookup. eauto.
Qed.

(** X5. After any sequence of requests, the id that [create_key] returns
    resolves, through [get_key], to the credential just created: it has
    the descriptive fields of the request, status ["active"], no
    [last_used_at], the time of the call as [last_rotated_at], and no
    consumer. *)
Theorem get_key_after_create admin_env dumps reqs now1 now2 payload :
  let s := run admin_env dumps reqs initial_store in
  exists key_id k s',
    create_key now1 now2 payload s = (Return (RCreated "ok" key_id), s')
    /\ get_key key_id s' = (Return (RKey k), s')
    /\ k = Key.mk key_id (KeyCreate.name payload) (KeyCreate.system_name payload)
             (KeyCreate.system_type payload) (KeyCreate.env payload)
             "active" None (Some now1) [].
Proof.
  intros s. rewrite create_key_run. do 3 eexists.
  split; [reflexivity|]. split; [|reflexivity].
  eapply get_key_found. simpl. apply find_key_snoc_fresh; [reflexivity|].
  apply ids_numbered_fresh, run_ids_numbered.
Qed.

(** X6. After a successful [rotate_key], [get_key] with the same id
    answers with a credential whose [last_rotated_at] is the time of the
    rotation. *)
Theorem get_key_after_rotate now1 now2 key_id s r s' :
  rotate_key now1 now2 key_id s = (Return r, s') ->
  exists k', get_key key_id s' = (Return (RKey k'), s')
             /\ Key.id k' = key_id /\ Key.last_rotated_at k' = Some now1.
Proof.
  intros H.
  destruct (find_key key_id (api_keys_db s)) as [[i k]|] eqn:Hfind.
  - rewrite (rotate_key_found _ _ _ _ _ _ Hfind) in H. injection H as _ <-.
    exists (Key.set_last_rotated_at now1 k). split; [|split].
    + eapply get_key_found. simpl.
      apply (find_key_insert _ _ _ k); [exact Hfind | reflexivity].
    + simpl. apply find_key_Some in Hfind as (_ & Hid & _). exact Hid.
    + reflexivity.
  - rewrite rotate_key_missing in H by assumption. discriminate.
Qed.

(** ** Allocation *)

(** X7. A successful [allocate_key] touches one credential, the first
    with the given id, and only its [allocated_to], which gets the consumer
    at its end unless it lists the consumer already; every other field of
    it and every other credential stay as they were.  It appends one
    allocation record, whose id it returns, and one audit entry. *)
Theorem allocate_key_frame now1 now2 payload s r s' :
  allocate_key now1 now2 payload s = (Return r, s') ->
  let c := AllocationCreate.consumer_id payload in
  exists (i : nat) (k k' : Key.t) (a : Allocation.t) (e : AuditEntry.t),
    api_keys_db s !! i = Some k /\ Key.id k = AllocationCreate.key_id payload
    /\ (forall m k0, m < i -> api_keys_db s !! m = Some k0 ->
          Key.id k0 <> AllocationCreate.key_id payload)
    /\ api_keys_db s' = <[i := k']> (api_keys_db s)
    /\ same_identity k k' /\ Key.last_rotated_at k' = Key.last_rotated_at k
    /\ Key.allocated_to k'
       = (if str_in c (Key.allocated_to k) then Key.allocated_to k
          else Key.allocated_to k ++ [c])%list
    /\ c ∈ Key.allocated_to k'
    /\ (forall j, j <> i -> api_keys_db s' !! j = api_keys_db s !! j)
    /\ allocations_db s' = (allocations_db s ++ [a])%list
    /\ r = RAllocated "allocated" (Allocation.id a)
    /\ audit_log_db s' = (audit_log_db s ++ [e])%list.
Proof.
  intros H c.
  destruct (find_key (AllocationCreate.key_id payload) (api_keys_db s))
    as [[i k]|] eqn:Hfind.
  - rewrite (allocate_key_found _ _ _ _ _ _ Hfind) in H.
    injection H as <- <-. simpl. fold c.
    apply find_key_Some in Hfind as (Hi & Hid & Hfirst).
    destruct (str_in c (Key.allocated_to k)) eqn:Hc.
    + exists i, k, k. do 2 eexists. rewrite Hc.
      split; [exact Hi|]. split; [exact Hid|]. split; [exact Hfirst|].
      split; [symmetry; apply list_insert_id; exact Hi|].
      split; [apply same_identity_refl|]. split; [reflexivity|].
      split; [reflexivity|]. split; [apply str_in_spec; exact Hc|].
      split; [reflexivity|]. repeat split.
    + exists i, k, (Key.allocated_to_append c k). do 2 eexists. rewrite Hc.
      split; [exact Hi|]. split; [exact Hid|]. split; [exact Hfirst|].
      split; [reflexivity|].
      split; [repeat split|]. split; [reflexivity|]. split; [reflexivity|].
      split; [simpl; apply elem_of_app; right; apply list_elem_of_singleton; reflexivity|].
      split; [intros j Hj; apply list_lookup_insert_ne; congruence|].
      repeat split.
  - rewrite allocate_key_missing in H by assumption. discriminate.
Qed.

Lemma allocate_key_resolves now1 now2 payload s r s' :
  allocate_key now1 now2 payload s = (Return r, s') ->
  exists i k', find_key (AllocationCreate.key_id payload) (api_keys_db s') = Some (i, k')
               /\ str_in (AllocationCreate.consumer_id payload) (Key.allocated_to k') = true.
Proof.
  intros H.
  destruct (find_key (AllocationCreate.key_id payload) (api_keys_db s))
    as [[i k]|] eqn:Hfind.
  - rewrite (allocate_key_found _ _ _ _ _ _ Hfind) in H. injection H as _ <-. simpl.
    destruct (str_in _ (Key.allocated_to k)) eqn:Hc.
    + exists i, k. split; assumption.
    + exists i, (Key.allocated_to_append (AllocationCreate.consumer_id payload) k).
      split; [apply (find_key_insert _ _ _ k); [exact Hfind | reflexivity]|].
      apply str_in_spec. simpl. apply elem_of_app. right.
      apply list_elem_of_singleton. reflexivity.
  - rewrite allocate_key_missing in H by assumption. discriminate.
Qed.

(** X8. Allocating again a consumer that a credential already has (same
    key id and consumer id, whatever the scope and the consumer type)
    succeeds and leaves every credential exactly as it is: the consumer is
    not listed a second time. *)
Theorem reallocation_keeps_keys now1 now2 payload s r s1 now3 now4 payload' :
  allocate_key now1 now2 payload s = (Return r, s1) ->
  AllocationCreate.key_id payload' = AllocationCreate.key_id payload ->
  AllocationCreate.consumer_id payload' = AllocationCreate.consumer_id payload ->
  api_keys_db (snd (allocate_key now3 now4 payload' s1)) = api_keys_db s1
  /\ exists r', fst (allocate_key now3 now4 payload' s1) = Return r'.
Proof.
  intros H Hkey Hcons. apply allocate_key_resolves in H as (i & k' & Hfind & Hc).
  rewrite <- Hkey in Hfind. rewrite <- Hcons in Hc.
  rewrite (allocate_key_found _ _ _ _ _ _ Hfind). simpl. rewrite Hc.
  split; [reflexivity|]. eexists. reflexivity.
Qed.

(** ** What every history keeps *)

Section Kept.

Variable admin_env : option string.
Variable dumps : Dict -> string.

Lemma run_keys_extend reqs s :
  keys_extend (api_keys_db s) (api_keys_db (run admin_env dumps reqs s)).
Proof.
  apply (run_keeps admin_env dumps
           (fun s' => keys_extend (api_keys_db s) (api_keys_db s')));
    [ intros s0 now1 now2 payload H | intros s0 now1 now2 payload H
    | intros s0 now1 now2 key_id H | intros s0 now payload H
    | apply keys_extend_refl ].
  - eapply keys_extend_trans; [exact H | apply create_key_keys_extend].
  - eapply keys_extend_trans; [exact H | apply allocate_key_keys_extend].
  - eapply keys_extend_trans; [exact H | apply rotate_key_keys_extend].
  - exact H.
Qed.

(** X9. Over any sequence of requests every credential stays at its
    position in [api_keys_db] and keeps its id, name, system name, system
    type, environment, status and [last_used_at]; its [allocated_to] only
    grows, at the end.  In particular no request revokes, renames or
    removes a credential. *)
Theorem credentials_never_rewritten reqs s :
  keys_extend (api_keys_db s) (api_keys_db (run admin_env dumps reqs s)).
Proof. apply run_keys_extend. Qed.

(** X10. An id that [get_key] resolves keeps resolving, after any
    sequence of requests, to the credential at the same position of
    [api_keys_db], which stays the first one with that id: [get_key] never
    starts to fail for it, and what it returns has the same identity and at
    least the consumers it had. *)
Theorem get_key_keeps_resolving key_id s k reqs :
  get_key key_id s = (Return (RKey k), s) ->
  let s' := run admin_env dumps reqs s in
  exists i k',
    api_keys_db s !! i = Some k
    /\ (forall m k0, m < i -> api_keys_db s !! m = Some k0 -> Key.id k0 <> key_id)
    /\ api_keys_db s' !! i = Some k'
    /\ (forall m k0, m < i -> api_keys_db s' !! m = Some k0 -> Key.id k0 <> key_id)
    /\ get_key key_id s' = (Return (RKey k'), s')
    /\ same_identity k k'
    /\ Key.allocated_to k `prefix_of` Key.allocated_to k'.
Proof.
  intros H s'.
  destruct (find_key key_id (api_keys_db s)) as [[i k0]|] eqn:Hfind.
  - rewrite (get_key_found _ _ _ _ Hfind) in H. injection H as ->.
    destruct (keys_extend_find_key _ _ _ _ _
                (run_keys_extend reqs s) Hfind)
      as (k' & Hfind' & Hsame & Hpre).
    exists i, k'.
    pose proof (find_key_Some _ _ _ _ Hfind) as (Hi & _ & Hfirst).
    pose proof (find_key_Some _ _ _ _ Hfind') as (Hi' & _ & Hfirst').
    split; [exact Hi|]. split; [exact Hfirst|].
    split; [exact Hi'|]. split; [exact Hfirst'|].
    split; [|split; assumption].
    eapply get_key_found. exact Hfind'.
  - unfold get_key in H. revert H. run_handler. rewrite Hfind. discriminate.
Qed.

(** *** Allocation records *)

Lemma allocations_db_create_key now1 now2 payload s :
  allocations_db (snd (create_key now1 now2 payload s)) = allocations_db s.
Proof. reflexivity. Qed.

Lemma allocations_db_rotate_key now1 now2 key_id s :
  allocations_db (snd (rotate_key now1 now2 key_id s)) = allocations_db s.
Proof.
  destruct (find_key key_id (api_keys_db s)) as [[i k]|] eqn:Hfind.
  - rewrite (rotate_key_found _ _ _ _ _ _ Hfind). reflexivity.
  - rewrite rotate_key_missing by assumption. reflexivity.
Qed.

Lemma allocations_db_allocate_key now1 now2 payload s :
  allocations_db (snd (allocate_key now1 now2 payload s)) = allocations_db s
  \/ exists r,
       fst (allocate_key now1 now2 payload s) = Return r
       /\ allocations_db (snd (allocate_key now1 now2 payload s))
          = (allocations_db s
             ++ [Allocation.mk ("alloc-" ++ fmt_03d (length (allocations_db s) + 1))
                   (AllocationCreate.key_id payload)
                   (AllocationCreate.consumer_type payload)
                   (AllocationCreate.consumer_id payload)
                   (AllocationCreate.scope payload) (DateTime.isoformat now1)])%list.
Proof.
  destruct (find_key (AllocationCreate.key_id payload) (api_keys_db s))
    as [[i k]|] eqn:Hfind.
  - right. rewrite (allocate_key_found _ _ _ _ _ _ Hfind). simpl.
    eexists. split; reflexivity.
  - left. rewrite allocate_key_missing by assumption. reflexivity.
Qed.

(** X11. Allocation records are written once: over any sequence of
    requests the records already in [allocations_db] stay, unchanged and in
    order, at the front of the list, and only [POST /allocations] adds to
    it. *)
Theorem allocations_append_only s :
  (forall reqs,
     allocations_db s `prefix_of` allocations_db (run admin_env dumps reqs s))
  /\ (forall req,
        match call req with
        | POST_allocations _ _ _ => True
        | _ => allocations_db (snd (handle admin_env dumps req s)) = allocations_db s
        end).
Proof.
  split.
  - intros reqs.
    apply (run_keeps admin_env dumps
             (fun s' => allocations_db s `prefix_of` allocations_db s'));
      [ intros s0 now1 now2 payload H | intros s0 now1 now2 payload H
      | intros s0 now1 now2 key_id H | intros s0 now payload H | reflexivity ].
    + exact H.
    + destruct (allocations_db_allocate_key now1 now2 payload s0)
        as [->|(r & _ & ->)]; [exact H | apply prefix_app_r; exact H].
    + rewrite allocations_db_rotate_key. exact H.
    + exact H.
  - intros [api_key c]. unfold handle. simpl.
    destruct c; try reflexivity; try exact I;
      (destruct (in_ADMIN_KEYS admin_env api_key) eqn:Hadm;
       [ rewrite admin_route_allowed by assumption
       | rewrite admin_route_denied by assumption; reflexivity ]);
      try reflexivity.
    + unfold get_key. run_handler.
      destruct (find_key key_id (api_keys_db s)) as [[i k]|]; reflexivity.
    + apply allocations_db_rotate_key.
Qed.

Lemma alloc_id_inj n m : "alloc-" ++ fmt_03d n = "alloc-" ++ fmt_03d m -> n = m.
Proof.
  simpl. intros H. injection H as H. exact (fmt_0d_inj 3 n m H).
Qed.

Lemma allocations_numbered_NoDup allocs :
  allocations_numbered allocs -> NoDup (Allocation.id <$> allocs).
Proof.
  intros Hnum. apply NoDup_alt. intros i j x Hi Hj.
  rewrite list_lookup_fmap in Hi, Hj.
  destruct (allocs !! i) as [ai|] eqn:Hai; [|discriminate].
  destruct (allocs !! j) as [aj|] eqn:Haj; [|discriminate].
  simpl in Hi, Hj. injection Hi as Hi. injection Hj as Hj.
  apply Hnum in Hai, Haj.
  assert (i + 1 = j + 1) by (apply alloc_id_inj; congruence). lia.
Qed.

Lemma allocations_numbered_snoc allocs a :
  allocations_numbered allocs ->
  Allocation.id a = "alloc-" ++ fmt_03d (length allocs + 1) ->
  allocations_numbered (allocs ++ [a]).
Proof.
  intros Hnum Ha i a' Hi. apply lookup_snoc_Some in Hi as [[_ Hi]|[-> <-]].
  - apply Hnum. exact Hi.
  - exact Ha.
Qed.

Lemma run_allocations_numbered reqs :
  allocations_numbered (allocations_db (run admin_env dumps reqs initial_store)).
Proof.
  apply (run_keeps admin_env dumps
           (fun s' => allocations_numbered (allocations_db s')));
    [ intros s0 now1 now2 payload H | intros s0 now1 now2 payload H
    | intros s0 now1 now2 key_id H | intros s0 now payload H
    | intros i a Hi; discriminate Hi ].
  - exact H.
  - destruct (allocations_db_allocate_key now1 now2 payload s0)
      as [->|(r & _ & ->)]; [exact H|].
    apply allocations_numbered_snoc; [exact H | reflexivity].
  - rewrite allocations_db_rotate_key. exact H.
  - exact H.
Qed.

(** X12. After any sequence of requests the allocation at position [i]
    has id [alloc-(i+1)], so the allocation ids are pairwise distinct and
    the id that [allocate_key] returns names one record only. *)
Theorem allocation_ids_unique reqs :
  let s := run admin_env dumps reqs initial_store in
  allocations_numbered (allocations_db s)
  /\ NoDup (Allocation.id <$> allocations_db s).
Proof.
  intros s. pose proof (run_allocations_numbered reqs) as Hnum.
  split; [exact Hnum | apply allocations_numbered_NoDup; exact Hnum].
Qed.

End Kept.

(** ** References between the three lists *)

Section References.

Variable admin_env : option string.
Variable dumps : Dict -> string.

Lemma allocations_resolve_extend s s' :
  allocations_resolve s ->
  keys_extend (api_keys_db s) (api_keys_db s') ->
  allocations_db s' = allocations_db s ->
  allocations_resolve s'.
Proof.
  intros Hs Hext Heq a Ha. rewrite Heq in Ha.
  destruct (Hs a Ha) as (i & k & Hfind & Hc).
  destruct (keys_extend_find_key _ _ _ _ _ Hext Hfind) as (k' & Hfind' & _ & Hpre).
  exists i, k'. split; [exact Hfind'|].
  destruct Hpre as [more Hmore]. rewrite Hmore. apply elem_of_app. left. exact Hc.
Qed.

(** X13. After any sequence of requests every allocation record names a
    credential that exists, and the credential its [key_id] resolves to
    lists the record's consumer in [allocated_to]. *)
Theorem allocations_name_credentials reqs :
  allocations_resolve (run admin_env dumps reqs initial_store).
Proof.
  apply (run_keeps admin_env dumps allocations_resolve);
    [ intros s now1 now2 payload H | intros s now1 now2 payload H
    | intros s now1 now2 key_id H | intros s now payload H
    | intros a Ha; inversion Ha ].
  - eapply allocations_resolve_extend;
      [exact H | apply create_key_keys_extend | reflexivity].
  - destruct (allocations_db_allocate_key now1 now2 payload s)
      as [Heq|(r & Hr & Heq)].
    + eapply allocations_resolve_extend;
        [exact H | apply allocate_key_keys_extend | exact Heq].
    + intros a Ha. rewrite Heq in Ha. apply elem_of_app in Ha as [Ha|Ha].
      * destruct (H a Ha) as (i & k & Hfind & Hc).
        destruct (keys_extend_find_key _ _ _ _ _
                    (allocate_key_keys_extend now1 now2 payload s) Hfind)
          as (k' & Hfind' & _ & [more Hmore]).
        exists i, k'. split; [exact Hfind'|].
        rewrite Hmore. apply elem_of_app. left. exact Hc.
      * apply list_elem_of_singleton in Ha as ->. simpl.
        destruct (allocate_key_resolves now1 now2 payload s r
                    (snd (allocate_key now1 now2 payload s)))
          as (i & k' & Hfind' & Hc).
        { rewrite <- Hr. apply surjective_pairing. }
        exists i, k'. split; [exact Hfind' | apply str_in_spec; exact Hc].
  - eapply allocations_resolve_extend;
      [exact H | apply rotate_key_keys_extend | apply allocations_db_rotate_key].
  - eapply allocations_resolve_extend;
      [exact H | apply keys_extend_refl | reflexivity].
Qed.

Lemma audit_resolves_extend s s' :
  audit_resolves s ->
  keys_extend (api_keys_db s) (api_keys_db s') ->
  forall e key_id, e ∈ audit_log_db s -> AuditEntry.key_id e = Some key_id ->
  exists k, k ∈ api_keys_db s' /\ Key.id k = key_id.
Proof.
  intros Hs Hext e key_id He Hkey.
  destruct (Hs e key_id He Hkey) as (k & Hk & Hid).
  destruct (keys_extend_elem_of _ _ _ Hext Hk) as (k' & Hk' & Hid').
  exists k'. split; [exact Hk' | congruence].
Qed.

Lemma audit_resolves_snoc s s' e :
  audit_resolves s ->
  keys_extend (api_keys_db s) (api_keys_db s') ->
  audit_log_db s' = (audit_log_db s ++ [e])%list ->
  (forall key_id, AuditEntry.key_id e = Some key_id ->
     exists k, k ∈ api_keys_db s' /\ Key.id k = key_id) ->
  audit_resolves s'.
Proof.
  intros Hs Hext Hlog Hnew e' key_id He' Hkey. rewrite Hlog in He'.
  apply elem_of_app in He' as [He'|He'].
  - eapply audit_resolves_extend; eassumption.
  - apply list_elem_of_singleton in He' as ->. apply Hnew. exact Hkey.
Qed.

(** X14. After any sequence of requests every audit entry has one of the
    four actions [create_key], [allocate_key], [rotate_key] and
    [system_request]; it has a ["key_id"] exactly when it is not a
    [system_request] entry; and that key id is the id of a credential of
    the store. *)
Theorem audit_entries_name_credentials reqs :
  let s := run admin_env dumps reqs initial_store in
  Forall entry_well_formed (audit_log_db s) /\ audit_resolves s.
Proof.
  apply (run_keeps admin_env dumps
           (fun s => Forall entry_well_formed (audit_log_db s) /\ audit_resolves s));
    [ intros s now1 now2 payload [Hwf Hres] | intros s now1 now2 payload [Hwf Hres]
    | intros s now1 now2 key_id [Hwf Hres] | intros s now payload [Hwf Hres]
    | split; [constructor | intros e key_id He; inversion He] ].
  - rewrite create_key_run. simpl. split.
    + apply Forall_app. split; [exact Hwf|]. apply Forall_singleton.
      right. eexists. split; [reflexivity|]. left. reflexivity.
    + eapply audit_resolves_snoc;
        [exact Hres | apply keys_extend_snoc | reflexivity |].
      simpl. intros key_id Hkey. injection Hkey as <-.
      eexists. split; [apply elem_of_app; right; apply list_elem_of_singleton; reflexivity|].
      reflexivity.
  - pose proof (allocate_key_keys_extend now1 now2 payload s) as Hext.
    destruct (find_key (AllocationCreate.key_id payload) (api_keys_db s))
      as [[i k]|] eqn:Hfind.
    + rewrite (allocate_key_found _ _ _ _ _ _ Hfind) in *. simpl in *. split.
      * apply Forall_app. split; [exact Hwf|]. apply Forall_singleton.
        right. eexists. split; [reflexivity|]. right. left. reflexivity.
      * eapply audit_resolves_snoc; [exact Hres | exact Hext | reflexivity |].
        simpl. intros key_id Hkey. injection Hkey as <-.
        apply find_key_Some in Hfind as (Hi & Hid & _).
        assert (Hk : k ∈ api_keys_db s) by (apply list_elem_of_lookup; eauto).
        destruct (keys_extend_elem_of _ _ _ Hext Hk) as (k' & Hk' & Hid').
        exists k'. split; [exact Hk' | congruence].
    + rewrite allocate_key_missing by assumption. simpl. split; assumption.
  - pose proof (rotate_key_keys_extend now1 now2 key_id s) as Hext.
    destruct (find_key key_id (api_keys_db s)) as [[i k]|] eqn:Hfind.
    + rewrite (rotate_key_found _ _ _ _ _ _ Hfind) in *. simpl in *. split.
      * apply Forall_app. split; [exact Hwf|]. apply Forall_singleton.
        right. eexists. split; [reflexivity|]. right. right. reflexivity.
      * eapply audit_resolves_snoc; [exact Hres | exact Hext | reflexivity |].
        simpl. intros key_id' Hkey. injection Hkey as <-.
        apply find_key_Some in Hfind as (Hi & Hid & _).
        assert (Hk : k ∈ api_keys_db s) by (apply list_elem_of_lookup; eauto).
        destruct (keys_extend_elem_of _ _ _ Hext Hk) as (k' & Hk' & Hid').
        exists k'. split; [exact Hk' | congruence].
    + rewrite rotate_key_missing by assumption. simpl. split; assumption.
  - unfold system_request. run_handler. split.
    + apply Forall_app. split; [exact Hwf|]. apply Forall_singleton.
      left. split; reflexivity.
    + eapply audit_resolves_snoc;
        [exact Hres | apply keys_extend_refl | reflexivity |].
      simpl. intros key_id Hkey. discriminate Hkey.
Qed.

(** X15. After any sequence of requests every credential has status
    ["active"] and a [last_rotated_at]: the service never sets another
    status and never clears the rotation time. *)
Theorem credentials_stay_active reqs :
  Forall key_as_served (api_keys_db (run admin_env dumps reqs initial_store)).
Proof.
  apply (run_keeps admin_env dumps (fun s => Forall key_as_served (api_keys_db s)));
    [ intros s now1 now2 payload H | intros s now1 now2 payload H
    | intros s now1 now2 key_id H | intros s now payload H | ].
  - rewrite create_key_run. simpl. apply Forall_app. split; [exact H|].
    apply Forall_singleton. split; [reflexivity | eexists; reflexivity].
  - destruct (find_key (AllocationCreate.key_id payload) (api_keys_db s))
      as [[i k]|] eqn:Hfind.
    + rewrite (allocate_key_found _ _ _ _ _ _ Hfind). simpl.
      destruct (str_in _ _); [exact H|].
      apply Forall_insert; [exact H|].
      apply find_key_Some in Hfind as (Hi & _ & _).
      exact (proj1 (Forall_lookup _ _) H i k Hi).
    + rewrite allocate_key_missing by assumption. exact H.
  - destruct (find_key key_id (api_keys_db s)) as [[i k]|] eqn:Hfind.
    + rewrite (rotate_key_found _ _ _ _ _ _ Hfind). simpl.
      apply Forall_insert; [exact H|].
      apply find_key_Some in Hfind as (Hi & _ & _).
      destruct (proj1 (Forall_lookup _ _) H i k Hi) as [Hst _].
      split; [exact Hst | eexists; reflexivity].
    + rewrite rotate_key_missing by assumption. exact H.
  - exact H.
  - simpl. repeat apply Forall_cons_2; try apply Forall_nil_2;
      (split; [reflexivity | eexists; reflexivity]).
Qed.

End References.

(** ** The window of the audit log query *)

(** X16. [get_audit_log] always shows the newest entry: the last entry it
    returns is the last one of the log.  A log of at most 100 entries is
    returned whole; in a longer one the entry at position [i] is returned,
    at position [i - (len - 100)], exactly when it is among the last
    100. *)
Theorem get_audit_log_window s :
  exists entries : list AuditEntry.t,
    fst (get_audit_log s) = Return (RAuditLog entries)
    /\ last entries = last (audit_log_db s)
    /\ (length (audit_log_db s) <= 100 -> entries = audit_log_db s)
    /\ (forall i, length (audit_log_db s) - 100 <= i ->
          entries !! (i - (length (audit_log_db s) - 100)) = audit_log_db s !! i).
Proof.
  exists (drop (length (audit_log_db s) - 100) (audit_log_db s)).
  split; [|split; [|split]].
  - unfold get_audit_log. run_handler.
    change (-100)%Z with (- Z.of_nat 100)%Z. rewrite slice_from_neg_drop. reflexivity.
  - rewrite !last_lookup, lookup_drop, length_drop.
    destruct (audit_log_db s) as [|e log]; [reflexivity|]. f_equal. simpl. lia.
  - intros Hlen. replace (length (audit_log_db s) - 100) with 0 by lia.
    apply drop_0.
  - intros i Hi. rewrite lookup_drop. f_equal. lia.
Qed.

(** ** Listing allocations *)

Lemma allocations_numbered_fresh allocs :
  allocations_numbered allocs ->
  "alloc-" ++ fmt_03d (length allocs + 1) ∉ (Allocation.id <$> allocs).
Proof.
  intros Hnum Hin. apply list_elem_of_fmap in Hin as (a & Hid & Ha).
  apply list_elem_of_lookup in Ha as [i Hi].
  pose proof (lookup_lt_Some _ _ _ Hi) as Hlt.
  apply Hnum in Hi. rewrite Hi in Hid. apply alloc_id_inj in Hid. lia.
Qed.



(** X17. After any sequence of requests, a successful [allocate_key]
    returns the id of the record it has just put last in what
    [list_allocations] returns; no earlier record has that id, and the
    record carries the key id, consumer, consumer type and scope of the
    request and the time of the call. *)
Theorem list_allocations_after_allocate admin_env dumps reqs now1 now2 payload r s' :
  let s := run admin_env dumps reqs initial_store in
  allocate_key now1 now2 payload s = (Return r, s') ->
  exists alloc_id,
    r = RAllocated "allocated" alloc_id
    /\ list_allocations s'
       = (Return (RAllocations
            (allocations_db s
             ++ [Allocation.mk alloc_id (AllocationCreate.key_id payload)
                   (AllocationCreate.consumer_type payload)
                   (AllocationCreate.consumer_id payload)
                   (AllocationCreate.scope payload) (DateTime.isoformat now1)])), s')
    /\ (alloc_id ∉ (Allocation.id <$> allocations_db s)).
Proof.
  intros s H.
  destruct (find_key (AllocationCreate.key_id payload) (api_keys_db s))
    as [[i k]|] eqn:Hfind.
  - rewrite (allocate_key_found _ _ _ _ _ _ Hfind) in H. injection H as <- <-.
    eexists. split; [reflexivity|]. split; [reflexivity|].
    apply allocations_numbered_fresh.
    apply run_allocations_numbered.
  - rewrite allocate_key_missing in H by assumption. discriminate.
Qed.

(** * The further properties on concrete stores *)

Lemma reads_leave_store_witness :
  snd (handle None sample_dumps (mkRequest demo_admin (GET_key "key-404")) initial_store)
  = initial_store.
Proof. apply reads_leave_store. reflexivity. Defined.

Lemma get_key_after_rotate_witness :
  exists k',
    get_key "key-002" (snd (rotate_key noon noon "key-002" store_with_twins))
    = (Return (RKey k'), snd (rotate_key noon noon "key-002" store_with_twins))
    /\ Key.id k' = "key-002" /\ Key.last_rotated_at k' = Some noon.
Proof.
  exact (get_key_after_rotate noon noon "key-002" store_with_twins _ _ eq_refl).
Defined.

Lemma allocate_key_frame_witness :
  let payload := AllocationCreate.mk "key-002" "service" "C1" [] in
  let s := store_with_twins in
  let s' := snd (allocate_key noon noon payload store_with_twins) in
  exists (i : nat) (k k' : Key.t) (a : Allocation.t) (e : AuditEntry.t),
    api_keys_db s !! i = Some k /\ Key.id k = "key-002"
    /\ (forall m k0, m < i -> api_keys_db s !! m = Some k0 -> Key.id k0 <> "key-002")
    /\ api_keys_db s' = <[i := k']> (api_keys_db s)
    /\ same_identity k k' /\ Key.last_rotated_at k' = Key.last_rotated_at k
    /\ Key.allocated_to k'
       = (if str_in "C1" (Key.allocated_to k) then Key.allocated_to k
          else Key.allocated_to k ++ ["C1"])%list
    /\ "C1" ∈ Key.allocated_to k'
    /\ (forall j, j <> i -> api_keys_db s' !! j = api_keys_db s !! j)
    /\ allocations_db s' = (allocations_db s ++ [a])%list
    /\ RAllocated "allocated" "alloc-001" = RAllocated "allocated" (Allocation.id a)
    /\ audit_log_db s' = (audit_log_db s ++ [e])%list.
Proof.
  exact (allocate_key_frame noon noon
           (AllocationCreate.mk "key-002" "service" "C1" []) store_with_twins
           _ _ eq_refl).
Defined.

Lemma reallocation_keeps_keys_witness :
  let s1 := snd (allocate_key noon noon (consumer_C1 [("read", JBool true)]) initial_store) in
  api_keys_db (snd (allocate_key noon noon (consumer_C1 [("write", JBool true)]) s1))
  = api_keys_db s1
  /\ exists r', fst (allocate_key noon noon (consumer_C1 [("write", JBool true)]) s1)
                = Return r'.
Proof.
  exact (reallocation_keeps_keys noon noon (consumer_C1 [("read", JBool true)])
           initial_store _ _ noon noon (consumer_C1 [("write", JBool true)])
           eq_refl eq_refl eq_refl).
Defined.

Lemma get_key_keeps_resolving_witness :
  let s := initial_store in
  let s' := run None sample_dumps allocate_C1_twice initial_store in
  exists k i k',
    get_key "key-003" s = (Return (RKey k), s)
    /\ api_keys_db s !! i = Some k
    /\ (forall m k0, m < i -> api_keys_db s !! m = Some k0 -> Key.id k0 <> "key-003")
    /\ api_keys_db s' !! i = Some k'
    /\ (forall m k0, m < i -> api_keys_db s' !! m = Some k0 -> Key.id k0 <> "key-003")
    /\ get_key "key-003" s' = (Return (RKey k'), s')
    /\ same_identity k k'
    /\ Key.allocated_to k `prefix_of` Key.allocated_to k'.
Proof.
  intros s s'. eexists.
  destruct (get_key_keeps_resolving None sample_dumps "key-003" initial_store _
              allocate_C1_twice eq_refl) as (i & k' & H).
  exists i, k'. split; [reflexivity | exact H].
Defined.

Lemma get_audit_log_window_witness :
  let s := snd (handle None sample_dumps create_K1 initial_store) in
  exists entries : list AuditEntry.t,
    fst (get_audit_log s) = Return (RAuditLog entries)
    /\ entries = audit_log_db s
    /\ entries !! 0 = audit_log_db s !! 0.
Proof.
  intros s. destruct (get_audit_log_window s) as (entries & Hget & _ & Hall & Hat).
  exists entries. split; [exact Hget|]. split.
  - apply Hall. unfold s. vm_compute. lia.
  - apply (Hat 0). unfold s. vm_compute. lia.
Defined.

Lemma list_allocations_after_allocate_witness :
  let s := run None sample_dumps allocate_C1_twice initial_store in
  let s' := snd (allocate_key noon noon (consumer_C1 []) s) in
  exists alloc_id,
    RAllocated "allocated" "alloc-003" = RAllocated "allocated" alloc_id
    /\ list_allocations s'
       = (Return (RAllocations
            (allocations_db s
             ++ [Allocation.mk alloc_id "key-003" "service" "C1" []
                   (DateTime.isoformat noon)])), s')
    /\ (alloc_id ∉ (Allocation.id <$> allocations_db s)).
Proof.
  exact (list_allocations_after_allocate None sample_dumps allocate_C1_twice
           noon noon (consumer_C1 []) _ _ eq_refl).
Defined.
